(** * The voice-activated drawer screen ([SideNav]) of the AR application

    A shallow embedding of the [SideNav] component found in
    [src/ar-app/App.js] (lines 34-225; line numbers below are those of that
    file): its hook state, its event handlers, its two effects and its
    render gate, run by a single-threaded event loop.  Calls into the platform ([Voice], [Camera],
    [PermissionsAndroid], [Animated], [Alert], [console]) are recorded in a
    log; every [await] on a platform promise parks a task that the
    environment settles later. *)

From stdpp Require Import base list strings.
From Stdlib Require Import ZArith Ascii String Lia.

Local Open Scope string_scope.
Local Open Scope Z_scope.

(** ** JavaScript strings

    A transcript is kept as the byte string of its UTF-8 text.  The two
    phrases the component looks for are made of the ASCII letters
    [c e l m n o p s u] and the space, and the only characters that
    [String.prototype.toLowerCase] sends to one of those are the ASCII
    capitals, so lower-casing the ASCII range decides the same matches. *)
Module JS.

Definition lower_char (c : ascii) : ascii :=
  let n := N_of_ascii c in
  if ((65 <=? n) && (n <=? 90))%N then ascii_of_N (n + 32) else c.

(** [s.toLowerCase()] *)
Fixpoint toLowerCase (s : string) : string :=
  match s with
  | EmptyString => EmptyString
  | String c s' => String (lower_char c) (toLowerCase s')
  end.

(** [s.includes(search)]: [search] occurs in [s] at some position. *)
Fixpoint includes (s search : string) : bool :=
  if String.prefix search s then true
  else match s with
       | EmptyString => false
       | String _ s' => includes s' search
       end.

End JS.

(** ** Data *)

(** [Platform.OS]; the component only asks whether it is ['android'], so
    [web] stands for every platform that is neither of the first two. *)
Inductive OS := android | ios | web.

(** [Camera.Constants.Type] *)
Inductive CameraType := back | front.

(** The hook state of one mounted [SideNav] (lines 35-41).  The
    [Animated.Value] of line 36 lives on the platform side: the component
    only ever starts timings on it, and those are in the call log. *)
Record State := mkState {
  isOpen : bool;
  isListening : bool;
  spokenText : string;
  isVoiceAvailable : bool;
  hasCameraPermission : option bool;   (* [null], [false], [true] *)
  cameraType : CameraType
}.

(** Calls the component makes into the platform. *)
Inductive Call :=
| PermissionsAndroid_request                     (* RECORD_AUDIO *)
| Voice_isAvailable
| Voice_start (locale : string)
| Voice_stop
| Voice_destroy
| Voice_removeAllListeners
| Camera_requestCameraPermissionsAsync
| Animated_timing_start (toValue duration : Z)
| Alert_alert (title message : string)
| console_warn
| console_error (message : string).

(** An [async] function of the component suspended at an [await] on a
    platform promise.  [start_mic] carries the [isVoiceAvailable] its
    closure captured when the button was pressed. *)
Inductive Task :=
| init_mic        (* [init] in [requestMicrophonePermission] *)
| init_avail      (* [init] in [checkVoiceAvailability] *)
| init_cam        (* [init] at [Camera.requestCameraPermissionsAsync] *)
| start_mic (captured_isVoiceAvailable : bool)
| start_voice     (* [startListening] at [Voice.start] *)
| stop_voice      (* [stopListening] at [Voice.stop] *)
| destroy_voice.  (* the cleanup's [Voice.destroy().then(..)] *)

(** How a platform promise settles.  The fulfilment value is kept as the
    outcome of the one test the source applies to it
    ([granted === GRANTED], [status === 'granted'], the truth of
    [isAvailable]); [start], [stop] and [destroy] ignore it. *)
Inductive Settled := Fulfilled (v : bool) | Rejected.

(** A permission request that came back granted; a denial, "never ask
    again" and a failed request are all not granted. *)
Definition is_granted (r : Settled) : bool :=
  match r with Fulfilled true => true | _ => false end.

(** The component instance with its surroundings: whether it is mounted
    (React drops state updates of an unmounted component), its state at the
    last commit, the suspended tasks, the platform calls made so far and the
    number of promises of its own that were rejected with nobody listening. *)
Record Machine := mkMachine {
  mounted : bool;
  st : State;
  pending : list Task;
  log : list Call;
  unhandled : nat
}.

(** ** Actions: state passing over [Machine] *)

Definition Action := Machine -> Machine.

Definition skip : Action := fun m => m.
Definition seq (a b : Action) : Action := fun m => b (a m).
Notation "a >>> b" := (seq a b) (at level 65, right associativity).

Definition call (c : Call) : Action := fun m =>
  mkMachine (mounted m) (st m) (pending m) (log m ++ [c]) (unhandled m).

(** [await p]: the running function is parked until [p] settles. *)
Definition await (t : Task) : Action := fun m =>
  mkMachine (mounted m) (st m) (pending m ++ [t]) (log m) (unhandled m).

(** A rejection that reaches the end of an [async] function nobody awaits. *)
Definition unhandledRejection : Action := fun m =>
  mkMachine (mounted m) (st m) (pending m) (log m) (S (unhandled m)).

(** A hook setter: takes effect only while the component is mounted. *)
Definition setState (f : State -> State) : Action := fun m =>
  if mounted m
  then mkMachine true (f (st m)) (pending m) (log m) (unhandled m)
  else m.

Definition setIsOpen (b : bool) : Action :=
  setState (fun s => mkState b (isListening s) (spokenText s)
                       (isVoiceAvailable s) (hasCameraPermission s) (cameraType s)).
Definition setIsListening (b : bool) : Action :=
  setState (fun s => mkState (isOpen s) b (spokenText s)
                       (isVoiceAvailable s) (hasCameraPermission s) (cameraType s)).
Definition setSpokenText (t : string) : Action :=
  setState (fun s => mkState (isOpen s) (isListening s) t
                       (isVoiceAvailable s) (hasCameraPermission s) (cameraType s)).
Definition setIsVoiceAvailable (b : bool) : Action :=
  setState (fun s => mkState (isOpen s) (isListening s) (spokenText s)
                       b (hasCameraPermission s) (cameraType s)).
Definition setHasCameraPermission (b : bool) : Action :=
  setState (fun s => mkState (isOpen s) (isListening s) (spokenText s)
                       (isVoiceAvailable s) (Some b) (cameraType s)).
Definition setCameraType (c : CameraType) : Action :=
  setState (fun s => mkState (isOpen s) (isListening s) (spokenText s)
                       (isVoiceAvailable s) (hasCameraPermission s) c).

(** ** The recognised intent

    The branch the transcript effect of lines 158-164 takes, as a value. *)
Inductive Intent := OpenDrawer | CloseDrawer | NoIntent.

Definition interpret (transcript : string) : Intent :=
  if JS.includes (JS.toLowerCase transcript) "open menu" then OpenDrawer
  else if JS.includes (JS.toLowerCase transcript) "close menu" then CloseDrawer
  else NoIntent.

(** What the rendered tree shows (lines 166-224), as far as behaviour
    goes: which handler the microphone button carries, and the camera. *)
Inductive Handler :=
| h_toggleMenu | h_startListening | h_stopListening | h_toggleCameraType.

Inductive Button := MenuButton | VoiceButton | CameraFlipButton | CloseButton.

Record Screen := mkScreen {
  voiceOnPress : Handler;
  micIcon : string;
  camera_type : CameraType;       (* [<Camera type={cameraType}>] *)
  banner : option string          (* "You said: ..." *)
}.

Inductive Rendered :=
| EmptyView                       (* [<View />] *)
| NoAccessText                    (* [<Text>No access to camera</Text>] *)
| MainScreen (scr : Screen).

Definition render (s : State) : Rendered :=
  match hasCameraPermission s with
  | None => EmptyView
  | Some false => NoAccessText
  | Some true =>
      MainScreen
        (mkScreen
           (if isListening s then h_stopListening else h_startListening)
           (if isListening s then "mic" else "mic-off")
           (cameraType s)
           (if String.eqb (spokenText s) "" then None else Some (spokenText s)))
  end.

(** The [<Camera>] element is part of the tree. *)
Definition camera_rendered (v : Rendered) : bool :=
  match v with MainScreen _ => true | _ => false end.

Definition onPress (v : Rendered) (b : Button) : option Handler :=
  match v with
  | MainScreen scr =>
      Some match b with
           | MenuButton | CloseButton => h_toggleMenu
           | VoiceButton => voiceOnPress scr
           | CameraFlipButton => h_toggleCameraType
           end
  | _ => None
  end.

(** ** Reading the call log and the parked tasks *)

Definition count {A} (f : A -> bool) (l : list A) : nat :=
  List.length (List.filter f l).

Definition is_camera_call (c : Call) : bool :=
  match c with Camera_requestCameraPermissionsAsync => true | _ => false end.
Definition is_Voice_start (c : Call) : bool :=
  match c with Voice_start _ => true | _ => false end.
Definition is_Voice_stop (c : Call) : bool :=
  match c with Voice_stop => true | _ => false end.
Definition is_Voice_destroy (c : Call) : bool :=
  match c with Voice_destroy => true | _ => false end.
Definition is_mic_request (c : Call) : bool :=
  match c with PermissionsAndroid_request => true | _ => false end.
Definition is_animation (c : Call) : bool :=
  match c with Animated_timing_start _ _ => true | _ => false end.

Definition is_init_mic (t : Task) : bool :=
  match t with init_mic => true | _ => false end.
Definition is_init_task (t : Task) : bool :=
  match t with init_mic | init_avail | init_cam => true | _ => false end.

(** Parked tasks from which a [Voice.start] can still follow: [init]
    before it has learnt the availability, and a [startListening] that
    captured [isVoiceAvailable = true]. *)
Definition voice_path (t : Task) : bool :=
  match t with init_mic | init_avail | start_mic true => true | _ => false end.

(** ** Case-insensitive containment, as the specification words it

    [text] has a piece that equals [phrase] when letter case is ignored. *)
Definition ci_eq (a b : string) : Prop :=
  JS.toLowerCase a = JS.toLowerCase b.

Definition contains_ci (phrase text : string) : Prop :=
  exists l mid r, text = l +:+ mid +:+ r /\ ci_eq mid phrase.

(** ** Further readings of the log and the parked tasks *)

Definition is_isAvailable (c : Call) : bool :=
  match c with Voice_isAvailable => true | _ => false end.
Definition is_removeAllListeners (c : Call) : bool :=
  match c with Voice_removeAllListeners => true | _ => false end.
Definition is_alert (c : Call) : bool :=
  match c with Alert_alert _ _ => true | _ => false end.

(** [init] has not yet reached the camera permission request. *)
Definition is_pre_cam (t : Task) : bool :=
  match t with init_mic | init_avail => true | _ => false end.
Definition is_destroy_task (t : Task) : bool :=
  match t with destroy_voice => true | _ => false end.
(** A [startListening] or [stopListening] that has not finished. *)
Definition is_voice_task (t : Task) : bool :=
  match t with start_mic _ | start_voice | stop_voice => true | _ => false end.
(** A [startListening] that will call [Voice.start] if it is permitted. *)
Definition is_armed (t : Task) : bool :=
  match t with start_mic true => true | _ => false end.

(** The target of the last timing started on the drawer's
    [Animated.Value], if any was. *)
Fixpoint last_animation (l : list Call) : option Z :=
  match l with
  | [] => None
  | c :: l' =>
      match last_animation l' with
      | Some v => Some v
      | None => match c with Animated_timing_start v _ => Some v | _ => None end
      end
  end.

(** ** The component *)
Module SideNav.
Section Component.

(** [Platform.OS] and [Dimensions.get('window').width]. *)
Variable Platform_OS : OS.
Variable SCREEN_WIDTH : Z.

(** Every function below that reads hook state takes [r], the state of
    the render that created its closure. *)

(** lines 50-58 *)
Definition toggleMenu (r : State) : Action :=
  call (Animated_timing_start (if isOpen r then - SCREEN_WIDTH else 0) 200) >>>
  setIsOpen (negb (isOpen r)).

(** lines 60-63; [value0] is [event.value[0]] *)
Definition onSpeechResults (value0 : string) : Action :=
  setSpokenText value0 >>>
  setIsListening false.

(** lines 65-86, up to the [await]: on Android the request goes out and
    the caller is parked as [t]; elsewhere the answer is [true] at once. *)
Definition requestMicrophonePermission (t : Task) (k : bool -> Action) : Action :=
  match Platform_OS with
  | android => call PermissionsAndroid_request >>> await t
  | _ => k true
  end.

(** lines 78-82: the request settled. *)
Definition requestMicrophonePermission_settled (r : Settled) (k : bool -> Action) : Action :=
  match r with
  | Fulfilled granted => k granted
  | Rejected => call console_warn >>> k false
  end.

(** lines 145: [init] reaches the camera permission request. *)
Definition init_requestCamera : Action :=
  call Camera_requestCameraPermissionsAsync >>> await init_cam.

(** lines 88-90: [checkVoiceAvailability] up to its [await] *)
Definition checkVoiceAvailability : Action :=
  call Voice_isAvailable >>> await init_avail.

(** lines 141-143 *)
Definition init_permitted (hasPermission : bool) : Action :=
  if hasPermission then checkVoiceAvailability else init_requestCamera.

(** lines 91-95: [checkVoiceAvailability] after its [await] *)
Definition checkVoiceAvailability_settled (r : Settled) : Action :=
  match r with
  | Fulfilled isAvailable => setIsVoiceAvailable isAvailable
  | Rejected =>
      call (console_error "Error checking voice availability:") >>>
      setIsVoiceAvailable false
  end.

(** line 146; a rejection leaves [init] through no [catch]. *)
Definition init_camera_settled (r : Settled) : Action :=
  match r with
  | Fulfilled granted => setHasCameraPermission granted
  | Rejected => unhandledRejection
  end.

(** lines 139-149 *)
Definition init : Action :=
  requestMicrophonePermission init_mic init_permitted.

(** lines 101-112 *)
Definition startListening_permitted (isVoiceAvailable_r hasPermission : bool) : Action :=
  if negb hasPermission then
    call (Alert_alert "Permission Denied"
            "Microphone permission is required for speech recognition.")
  else if negb isVoiceAvailable_r then
    call (Alert_alert "Voice Recognition Unavailable"
            "Voice recognition is not available on this device.")
  else
    setIsListening true >>>
    call (Voice_start "en-US") >>>
    await start_voice.

(** lines 98-100 *)
Definition startListening (r : State) : Action :=
  requestMicrophonePermission (start_mic (isVoiceAvailable r))
    (startListening_permitted (isVoiceAvailable r)).

(** lines 113-117: the [catch] of [startListening] *)
Definition startListening_settled (r : Settled) : Action :=
  match r with
  | Fulfilled _ => skip
  | Rejected =>
      call (console_error "Failed to start speech recognition") >>>
      call (Alert_alert "Error" "Failed to start speech recognition. Please try again.") >>>
      setIsListening false
  end.

(** lines 120-122 *)
Definition stopListening : Action :=
  call Voice_stop >>> await stop_voice.

(** lines 123-127 *)
Definition stopListening_settled (r : Settled) : Action :=
  match r with
  | Fulfilled _ => setIsListening false
  | Rejected =>
      call (console_error "Failed to stop speech recognition") >>>
      call (Alert_alert "Error" "Failed to stop speech recognition. Please try again.")
  end.

(** lines 130-136 *)
Definition toggleCameraType (r : State) : Action :=
  setCameraType (match cameraType r with back => front | _ => back end).

(** lines 153-155 *)
Definition cleanup : Action :=
  call Voice_destroy >>> await destroy_voice.

Definition cleanup_settled (r : Settled) : Action :=
  match r with
  | Fulfilled _ => call Voice_removeAllListeners
  | Rejected => unhandledRejection
  end.

(** lines 158-164, the body of the transcript effect *)
Definition intentEffect (r : State) : Action :=
  if JS.includes (JS.toLowerCase (spokenText r)) "open menu" then
    if negb (isOpen r) then toggleMenu r else skip
  else if JS.includes (JS.toLowerCase (spokenText r)) "close menu" then
    if isOpen r then toggleMenu r else skip
  else skip.

(** The effect's dependency list [[spokenText, isOpen, toggleMenu]]:
    [toggleMenu] is a [useCallback] over [[isOpen, animation]], so it
    changes exactly when [isOpen] does. *)
Definition deps_changed (prev cur : State) : bool :=
  negb (String.eqb (spokenText prev) (spokenText cur))
  || negb (Bool.eqb (isOpen prev) (isOpen cur)).

(** React's bound on nested updates coming from effects. *)
Definition NESTED_UPDATE_LIMIT : nat := 50.

(** After a commit the transcript effect runs when a dependency differs
    from the previous commit; if it sets state, that is another commit. *)
Fixpoint flushEffects (fuel : nat) (prev : State) (m : Machine) : Machine :=
  match fuel with
  | O => m
  | S fuel' =>
      if mounted m && deps_changed prev (st m)
      then flushEffects fuel' (st m) (intentEffect (st m) m)
      else m
  end.

(** Run [a] on [m], commit its updates and let the effects settle. *)
Definition commit (a : Action) (m : Machine) : Machine :=
  flushEffects NESTED_UPDATE_LIMIT (st m) (a m).

Definition run_handler (h : Handler) (r : State) : Action :=
  match h with
  | h_toggleMenu => toggleMenu r
  | h_startListening => startListening r
  | h_stopListening => stopListening
  | h_toggleCameraType => toggleCameraType r
  end.

(** The continuation of a parked task once its promise has settled. *)
Definition resume (t : Task) (r : Settled) : Action :=
  match t with
  | init_mic => requestMicrophonePermission_settled r init_permitted
  | init_avail => checkVoiceAvailability_settled r >>> init_requestCamera
  | init_cam => init_camera_settled r
  | start_mic captured =>
      requestMicrophonePermission_settled r (startListening_permitted captured)
  | start_voice => startListening_settled r
  | stop_voice => stopListening_settled r
  | destroy_voice => cleanup_settled r
  end.

Definition initialState : State :=
  mkState false false "" false None back.

(** First render and the two effects, in source order. *)
Definition mount : Machine :=
  (init >>> intentEffect initialState) (mkMachine true initialState [] [] 0).

(** What can happen next on the event loop.  A speech result carries
    [event.value], the engine's non-empty list of candidate texts. *)
Inductive Event :=
| Press (b : Button)
| SpeechResults (value0 : string) (rest : list string)
| Settle (i : nat) (r : Settled)          (* the [i]-th parked promise settles *)
| Unmount.

Definition unpark (i : nat) : Action := fun m =>
  mkMachine (mounted m) (st m) (delete i (pending m)) (log m) (unhandled m).

Definition unmounted : Action := fun m =>
  mkMachine false (st m) (pending m) (log m) (unhandled m).

Definition step (m : Machine) (e : Event) : Machine :=
  match e with
  | Press b =>
      if mounted m then
        match onPress (render (st m)) b with
        | Some h => commit (run_handler h (st m)) m
        | None => m
        end
      else m
  | SpeechResults value0 _ => commit (onSpeechResults value0) m
  | Settle i r =>
      match pending m !! i with
      | Some t => commit (unpark i >>> resume t r) m
      | None => m
      end
  | Unmount =>
      if mounted m then (cleanup >>> unmounted) m else m
  end.

Definition run (m : Machine) (evs : list Event) : Machine :=
  foldl step m evs.

(** The drawer position a request asks for, if it is one. *)
Definition request_target (s : State) (e : Event) : option bool :=
  match e with
  | Press MenuButton | Press CloseButton => Some (negb (isOpen s))
  | SpeechResults value0 _ =>
      match interpret value0 with
      | OpenDrawer => Some true
      | CloseDrawer => Some false
      | NoIntent => None
      end
  | _ => None
  end.

(** One pass of the transcript effect after a commit. *)
Definition settle (prev : State) (m : Machine) : Machine :=
  if mounted m && deps_changed prev (st m) then intentEffect (st m) m else m.

(** Every machine an execution goes through, the first one included. *)
Fixpoint trace (m : Machine) (evs : list Event) : list Machine :=
  m :: match evs with
       | [] => []
       | e :: evs' => trace (step m e) evs'
       end.


Definition is_voice_press (e : Event) : bool :=
  match e with Press VoiceButton => true | _ => false end.

(** Results delivered to a mounted screen at a moment when it was
    listening.  This is not the number of results the screen takes in:
    [onSpeechResults] stores every result it is given, see
    [results_stored]. *)
Fixpoint results_while_listening (m : Machine) (evs : list Event) : nat :=
  match evs with
  | [] => 0
  | e :: evs' =>
      (match e with
       | SpeechResults _ _ => Nat.b2n (mounted m && isListening (st m))
       | _ => 0
       end + results_while_listening (step m e) evs')%nat
  end.

(** Results delivered to a mounted screen, listening or not: each one
    is stored as the transcript by [onSpeechResults]. *)
Fixpoint results_stored (m : Machine) (evs : list Event) : nat :=
  match evs with
  | [] => 0
  | e :: evs' =>
      (match e with
       | SpeechResults _ _ => Nat.b2n (mounted m)
       | _ => 0
       end + results_stored (step m e) evs')%nat
  end.

(** [e] is the [Voice.isAvailable] of [init] answering that voice
    recognition is available. *)
Definition avail_answer (m : Machine) (e : Event) : bool :=
  match e with
  | Settle i (Fulfilled true) =>
      match pending m !! i with Some init_avail => true | _ => false end
  | _ => false
  end.

(** Some event of the execution was such an answer. *)
Fixpoint answered_available (m : Machine) (evs : list Event) : bool :=
  match evs with
  | [] => false
  | e :: evs' => avail_answer m e || answered_available (step m e) evs'
  end.

(** [e] is the promise of the cleanup's [Voice.destroy] being
    fulfilled. *)
Definition destroy_fulfilled (m : Machine) (e : Event) : bool :=
  match e with
  | Settle i (Fulfilled _) =>
      match pending m !! i with Some destroy_voice => true | _ => false end
  | _ => false
  end.

(** How many events of the execution were such fulfilments. *)
Fixpoint destroys_fulfilled (m : Machine) (evs : list Event) : nat :=
  match evs with
  | [] => 0
  | e :: evs' =>
      (Nat.b2n (destroy_fulfilled m e) + destroys_fulfilled (step m e) evs')%nat
  end.

(** Voice is off: nothing available, nobody listening, no [Voice.start]. *)
Definition voice_fields_off (m : Machine) : Prop :=
  isVoiceAvailable (st m) = false /\ isListening (st m) = false /\
  count is_Voice_start (log m) = 0%nat.

(** Voice is off for good: no parked task can turn it on either. *)
Definition voice_dead (m : Machine) : Prop :=
  count voice_path (pending m) = 0%nat /\ voice_fields_off m.

(** [init] runs at most once, and while it waits for the microphone
    answer it is the only way voice could come on. *)
Definition mic_wait (m : Machine) : Prop :=
  (count is_init_mic (pending m) <= 1)%nat /\
  ((1 <= count is_init_mic (pending m))%nat ->
   count voice_path (pending m) = 1%nat /\ voice_fields_off m).

(** While [init] is under way the camera permission is still [null]. *)
Definition cam_wait (m : Machine) : Prop :=
  (count is_init_task (pending m) <= 1)%nat /\
  ((1 <= count is_init_task (pending m))%nat -> hasCameraPermission (st m) = None).

(** [init] is over and did not obtain the camera. *)
Definition cam_dead (m : Machine) : Prop :=
  count is_init_task (pending m) = 0%nat /\
  hasCameraPermission (st m) <> Some true.

(** Where the drawer is or is heading: the target of the last timing,
    or the [Animated.Value]'s initial [-SCREEN_WIDTH] (line 36). *)
Definition drawer_offset (m : Machine) : Z :=
  default (- SCREEN_WIDTH) (last_animation (log m)).

(** The drawer is where the transcript on screen wants it. *)
Definition drawer_agrees (m : Machine) : Prop :=
  match interpret (spokenText (st m)) with
  | OpenDrawer => isOpen (st m) = true
  | CloseDrawer => isOpen (st m) = false
  | NoIntent => True
  end.

(** Events that can move the drawer. *)
Definition moves_drawer (e : Event) : bool :=
  match e with
  | Press MenuButton | Press CloseButton | SpeechResults _ _ => true
  | _ => false
  end.

(** The drawer and its animation are in step, and every timing is a
    200 ms slide to one of the two ends. *)
Definition drawer_in_step (m : Machine) : Prop :=
  drawer_offset m = (if isOpen (st m) then 0 else - SCREEN_WIDTH) /\
  Forall (fun c => match c with
                   | Animated_timing_start v d =>
                       (v = 0 \/ v = - SCREEN_WIDTH) /\ d = 200
                   | _ => True
                   end) (log m).

(** [init] is over and the camera permission is settled as [c]. *)
Definition cam_final (c : option bool) (m : Machine) : Prop :=
  count is_init_task (pending m) = 0%nat /\ hasCameraPermission (st m) = c.

(** Nothing voice-related happens before [init] is over, and listening
    or starting the engine needs a positive availability answer. *)
Definition voice_guard (m : Machine) : Prop :=
  cam_wait m /\
  (hasCameraPermission (st m) = None ->
   isListening (st m) = false /\ count is_Voice_start (log m) = 0%nat /\
   count is_armed (pending m) = 0%nat) /\
  (isListening (st m) = true \/ (1 <= count is_Voice_start (log m))%nat \/
   (1 <= count is_armed (pending m))%nat ->
   isVoiceAvailable (st m) = true).

End Component.
End SideNav.

Import SideNav.

(** ** Sample executions

    A phone 360 points wide.  On iOS the microphone needs no prompt, so
    [init] is first parked at [Voice.isAvailable]; here the engine is
    available and the camera is granted. *)
Definition granted_ios : Machine :=
  run ios 360 (mount ios 360) [Settle 0 (Fulfilled true); Settle 0 (Fulfilled true)].

(** The same screen after the user has said "open menu". *)
Definition heard_open_menu : Machine :=
  step ios 360 granted_ios (SpeechResults "open menu" []).

(** The same screen right after a press on the voice button:
    listening, with [Voice.start] under way. *)
Definition starting : Machine :=
  step ios 360 granted_ios (Press VoiceButton).

(** The same screen, listening, with a [Voice.stop] under way. *)
Definition stopping : Machine :=
  run ios 360 granted_ios
    [Press VoiceButton; Settle 0 (Fulfilled true); Press VoiceButton].


(** One press on the voice button, then three results from the engine. *)
Definition one_start_three_results : list Event :=
  [Settle 0 (Fulfilled true); Settle 0 (Fulfilled true); Press VoiceButton;
   SpeechResults "one" []; SpeechResults "two" []; SpeechResults "three" []].

(** An Android screen, everything granted, unmounted while a
    [startListening] was waiting for the permission prompt. *)
Definition unmounted_while_asking : Machine :=
  run android 360 (mount android 360)
    [Settle 0 (Fulfilled true); Settle 0 (Fulfilled true);
     Settle 0 (Fulfilled true); Press VoiceButton; Unmount].

(** * Facts about the string operations *)

Module JSFacts.
Import JS.

Lemma prefix_app (p s : string) :
  String.prefix p s = true <-> exists r, s = p +:+ r.
Proof.
  revert s. induction p as [|c p IH]; intros s.
  - split; [intros _; exists s; reflexivity | by destruct s].
  - destruct s as [|d s]; simpl.
    + split; [done | intros [r Hr]; discriminate].
    + destruct (Ascii.ascii_dec c d) as [->|Hne].
      * rewrite IH. split; intros [r Hr]; exists r.
        -- simpl. by rewrite Hr.
        -- simpl in Hr. by injection Hr.
      * split; [done | intros [r Hr]; simpl in Hr; by injection Hr].
Qed.

Lemma includes_unfold (s search : string) :
  includes s search =
  if String.prefix search s then true
  else match s with EmptyString => false | String _ s' => includes s' search end.
Proof. by destruct s. Qed.

Lemma includes_occurs (s search : string) :
  includes s search = true <-> exists l r, s = l +:+ search +:+ r.
Proof.
  induction s as [|c s IH]; rewrite includes_unfold;
    destruct (String.prefix search _) eqn:Hp.
  - apply prefix_app in Hp as [r Hr]. split; [|done].
    intros _. exists "", r. exact Hr.
  - split; [done|]. intros ([|d l] & r & Hlr); simpl in Hlr; [|discriminate].
    assert (String.prefix search "" = true) as Ht by (apply prefix_app; eauto).
    congruence.
  - apply prefix_app in Hp as [r Hr]. split; [|done].
    intros _. exists "", r. exact Hr.
  - rewrite IH. split.
    + intros (l & r & ->). exists (String c l), r. reflexivity.
    + intros ([|d l] & r & Hlr); simpl in Hlr.
      * assert (String.prefix search (String c s) = true) as Ht
          by (apply prefix_app; eauto).
        congruence.
      * injection Hlr as -> ->. eauto.
Qed.

Lemma toLowerCase_app (a b : string) :
  toLowerCase (a +:+ b) = toLowerCase a +:+ toLowerCase b.
Proof. induction a as [|c a IH]; simpl; [done | by rewrite IH]. Qed.

Lemma toLowerCase_split (t a b : string) :
  toLowerCase t = a +:+ b ->
  exists x y, t = x +:+ y /\ toLowerCase x = a /\ toLowerCase y = b.
Proof.
  revert t. induction a as [|c a IH]; intros t H; simpl in H.
  - exists "", t. simpl. auto.
  - destruct t as [|d t]; simpl in H; [discriminate|].
    injection H as Hc Ht. destruct (IH _ Ht) as (x & y & -> & Hx & Hy).
    exists (String d x), y. simpl. by rewrite Hc, Hx.
Qed.

Lemma lower_char_idemp (c : ascii) : lower_char (lower_char c) = lower_char c.
Proof. destruct c as [[] [] [] [] [] [] [] []]; reflexivity. Qed.

Lemma toLowerCase_idemp (s : string) : toLowerCase (toLowerCase s) = toLowerCase s.
Proof. induction s as [|c s IH]; simpl; [done|]. by rewrite lower_char_idemp, IH. Qed.

End JSFacts.

Lemma includes_lower_contains_ci (phrase text : string) :
  JS.includes (JS.toLowerCase text) (JS.toLowerCase phrase) = true
  <-> contains_ci phrase text.
Proof.
  rewrite JSFacts.includes_occurs. split.
  - intros (l' & r' & H).
    apply JSFacts.toLowerCase_split in H as (l & y & -> & _ & Hy).
    apply JSFacts.toLowerCase_split in Hy as (m & r & -> & Hm & _).
    by exists l, m, r.
  - intros (l & m & r & -> & Hm).
    exists (JS.toLowerCase l), (JS.toLowerCase r).
    by rewrite !JSFacts.toLowerCase_app, Hm.
Qed.

(** * Facts about the component *)

Section SideNavFacts.

Variable Platform_OS : OS.
Variable SCREEN_WIDTH : Z.

Local Abbreviation intentEffect := (SideNav.intentEffect SCREEN_WIDTH).
Local Abbreviation flushEffects := (SideNav.flushEffects SCREEN_WIDTH).
Local Abbreviation settle := (SideNav.settle SCREEN_WIDTH).
Local Abbreviation commit := (SideNav.commit SCREEN_WIDTH).
Local Abbreviation mount := (SideNav.mount Platform_OS SCREEN_WIDTH).
Local Abbreviation step := (SideNav.step Platform_OS SCREEN_WIDTH).
Local Abbreviation run := (SideNav.run Platform_OS SCREEN_WIDTH).
Local Abbreviation trace := (SideNav.trace Platform_OS SCREEN_WIDTH).
Local Abbreviation results_while_listening :=
  (SideNav.results_while_listening Platform_OS SCREEN_WIDTH).
Local Abbreviation results_stored :=
  (SideNav.results_stored Platform_OS SCREEN_WIDTH).
Local Abbreviation answered_available :=
  (SideNav.answered_available Platform_OS SCREEN_WIDTH).
Local Abbreviation destroys_fulfilled :=
  (SideNav.destroys_fulfilled Platform_OS SCREEN_WIDTH).

(** ** The transcript effect settles after one pass *)

Lemma deps_changed_refl (s : State) : deps_changed s s = false.
Proof.
  unfold deps_changed. rewrite String.eqb_refl. by destruct (isOpen s).
Qed.

Lemma intentEffect_twice (m : Machine) :
  mounted m = true ->
  intentEffect (st (intentEffect (st m) m)) (intentEffect (st m) m) = intentEffect (st m) m.
Proof.
  destruct m as [mt [o li tx av cp ct] p lg u]. simpl. intros ->.
  unfold SideNav.intentEffect; simpl.
  destruct (JS.includes (JS.toLowerCase tx) "open menu") eqn:Ho;
  destruct (JS.includes (JS.toLowerCase tx) "close menu") eqn:Hc;
  destruct o; simpl; rewrite ?Ho, ?Hc; reflexivity.
Qed.

Lemma intentEffect_mounted r m : mounted (intentEffect r m) = mounted m.
Proof.
  destruct m as [[] s p lg u]; unfold SideNav.intentEffect;
  repeat (case_match; simpl; try reflexivity).
Qed.

Lemma flushEffects_S (n : nat) (prev : State) (m : Machine) :
  flushEffects (S n) prev m = settle prev m.
Proof.
  unfold SideNav.settle. simpl.
  destruct (mounted m && deps_changed prev (st m)) eqn:Hc; [|done].
  apply andb_prop in Hc as [Hm _].
  destruct n as [|n]; [done|]. simpl.
  rewrite intentEffect_mounted, Hm. simpl.
  destruct (deps_changed _ _); [|done].
  rewrite intentEffect_twice by done.
  destruct n as [|n]; [done|]. simpl.
  by rewrite deps_changed_refl, andb_false_r.
Qed.

Lemma commit_settle (a : Action) (m : Machine) : commit a m = settle (st m) (a m).
Proof. apply flushEffects_S. Qed.

(** ** Counting calls and tasks *)

Lemma count_app {A} (f : A -> bool) (l k : list A) :
  count f (l ++ k) = (count f l + count f k)%nat.
Proof. unfold count. by rewrite List.filter_app, List.length_app. Qed.

Lemma count_nil {A} (f : A -> bool) : count f [] = 0%nat.
Proof. done. Qed.

Lemma count_cons {A} (f : A -> bool) (x : A) (l : list A) :
  count f (x :: l) = ((if f x then 1 else 0) + count f l)%nat.
Proof. unfold count. simpl. by destruct (f x). Qed.

Ltac count_simpl :=
  repeat (rewrite ?count_app, ?count_cons, ?count_nil; simpl).

Lemma count_delete {A} (f : A -> bool) (l : list A) (i : nat) (x : A) :
  l !! i = Some x ->
  count f l = ((if f x then 1 else 0) + count f (delete i l))%nat.
Proof.
  revert i. induction l as [|y l IH]; intros [|i] H; simplify_eq/=.
  - unfold count. simpl. by destruct (f x).
  - specialize (IH _ H). unfold count in *. simpl.
    destruct (f y); simpl; lia.
Qed.

Lemma count_mono {A} (f g : A -> bool) (l : list A) :
  (forall x, f x = true -> g x = true) -> (count f l <= count g l)%nat.
Proof.
  intros H. induction l as [|x l IH]; [done|]. rewrite !count_cons.
  destruct (f x) eqn:Hf; [rewrite (H _ Hf)|destruct (g x)]; lia.
Qed.

Lemma init_mic_voice_path (l : list Task) :
  (count is_init_mic l <= count voice_path l)%nat.
Proof. apply count_mono. by intros []. Qed.

(** ** What the transcript effect leaves alone *)

Lemma settle_mounted prev m : mounted (settle prev m) = mounted m.
Proof. unfold SideNav.settle. case_match; [apply intentEffect_mounted | done]. Qed.

Lemma intentEffect_frame r m :
  pending (intentEffect r m) = pending m /\
  unhandled (intentEffect r m) = unhandled m /\
  isListening (st (intentEffect r m)) = isListening (st m) /\
  spokenText (st (intentEffect r m)) = spokenText (st m) /\
  isVoiceAvailable (st (intentEffect r m)) = isVoiceAvailable (st m) /\
  hasCameraPermission (st (intentEffect r m)) = hasCameraPermission (st m) /\
  cameraType (st (intentEffect r m)) = cameraType (st m) /\
  List.filter (fun c => negb (is_animation c)) (log (intentEffect r m))
  = List.filter (fun c => negb (is_animation c)) (log m).
Proof.
  destruct m as [[] s p lg u]; unfold SideNav.intentEffect;
  repeat (case_match; simpl; rewrite ?List.filter_app, ?app_nil_r; try done).
Qed.

Lemma settle_frame prev m :
  pending (settle prev m) = pending m /\
  unhandled (settle prev m) = unhandled m /\
  isListening (st (settle prev m)) = isListening (st m) /\
  spokenText (st (settle prev m)) = spokenText (st m) /\
  isVoiceAvailable (st (settle prev m)) = isVoiceAvailable (st m) /\
  hasCameraPermission (st (settle prev m)) = hasCameraPermission (st m) /\
  cameraType (st (settle prev m)) = cameraType (st m) /\
  List.filter (fun c => negb (is_animation c)) (log (settle prev m))
  = List.filter (fun c => negb (is_animation c)) (log m).
Proof. unfold SideNav.settle. case_match; [apply intentEffect_frame | done]. Qed.

Lemma count_filter_other {A} (f g : A -> bool) (l : list A) :
  (forall x, f x = true -> g x = true) ->
  count f (List.filter g l) = count f l.
Proof.
  intros H. unfold count. induction l as [|x l IH]; simpl; [done|].
  destruct (g x) eqn:Hg, (f x) eqn:Hf; simpl; rewrite ?Hf; simpl; try lia.
  apply H in Hf. congruence.
Qed.

Lemma settle_count (f : Call -> bool) prev m :
  (forall v d, f (Animated_timing_start v d) = false) ->
  count f (log (settle prev m)) = count f (log m).
Proof.
  intros Hf.
  assert (forall x, f x = true -> negb (is_animation x) = true) as Hfg.
  { intros [] Hx; simpl; try done. by rewrite Hf in Hx. }
  rewrite <- (count_filter_other f _ (log (settle prev m)) Hfg).
  rewrite <- (count_filter_other f _ (log m) Hfg).
  f_equal. apply settle_frame.
Qed.

(** ** Reasoning by cases on the event *)

Ltac act_simpl :=
  unfold run_handler, toggleMenu, startListening, stopListening,
    toggleCameraType, onSpeechResults, requestMicrophonePermission,
    requestMicrophonePermission_settled, init_permitted, init_requestCamera,
    checkVoiceAvailability,
    checkVoiceAvailability_settled, init_camera_settled,
    startListening_permitted, startListening_settled, stopListening_settled,
    cleanup, cleanup_settled, resume, init, seq, call, await, unhandledRejection,
    setIsOpen, setIsListening, setSpokenText, setIsVoiceAvailable,
    setHasCameraPermission, setCameraType, setState, skip, unpark, unmounted
    in *; simpl in *.

Lemma onPress_cases s b h :
  onPress (render s) b = Some h ->
  hasCameraPermission s = Some true /\
  h = match b with
      | MenuButton | CloseButton => h_toggleMenu
      | VoiceButton => if isListening s then h_stopListening else h_startListening
      | CameraFlipButton => h_toggleCameraType
      end.
Proof.
  unfold render, onPress.
  destruct (hasCameraPermission s) as [[]|]; [|done..].
  intros [= <-]. by destruct b.
Qed.

(** Whatever relates a machine to the outcome of each handler, each
    continuation and the cleanup, and survives a pass of the transcript
    effect, relates it to its successor under every event. *)
Lemma step_ind (R : Event -> Machine -> Machine -> Prop) :
  (forall e m, match e with SpeechResults _ _ => True | _ => R e m m end) ->
  (forall e prev m m', R e m m' -> R e m (settle prev m')) ->
  (forall m b h, mounted m = true -> onPress (render (st m)) b = Some h ->
     R (Press b) m (run_handler Platform_OS SCREEN_WIDTH h (st m) m)) ->
  (forall m v rest, R (SpeechResults v rest) m (onSpeechResults v m)) ->
  (forall m i t r, pending m !! i = Some t ->
     R (Settle i r) m ((unpark i >>> resume t r) m)) ->
  (forall m, mounted m = true -> R Unmount m ((cleanup >>> unmounted) m)) ->
  forall m e, R e m (step m e).
Proof.
  intros Hrefl Hsettle Hpress Hspeech Hres Hunmount m e.
  destruct e as [b|v rest|i r|]; unfold SideNav.step.
  - destruct (mounted m) eqn:Hmt; [|apply (Hrefl (Press b))].
    destruct (onPress _ b) as [h|] eqn:Hh; [|apply (Hrefl (Press b))].
    rewrite commit_settle. by apply Hsettle, Hpress.
  - rewrite commit_settle. apply Hsettle, Hspeech.
  - destruct (pending m !! i) as [t|] eqn:Ht; [|apply (Hrefl (Settle i r))].
    rewrite commit_settle. by apply Hsettle, Hres.
  - destruct (mounted m) eqn:Hmt; [|apply (Hrefl Unmount)]. by apply Hunmount.
Qed.

(** Rewrites the parts of a settled machine that the effect cannot
    touch. *)
Ltac settle_closed :=
  intros;
  match goal with
  | |- context [SideNav.settle _ ?prev ?m] =>
      let Hp := fresh "Hp" in let Hl := fresh "Hl" in
      let Hv := fresh "Hv" in let Hc := fresh "Hc" in
      destruct (settle_frame prev m) as (Hp & _ & Hl & _ & Hv & Hc & _);
      rewrite ?settle_mounted, ?Hp, ?Hl, ?Hv, ?Hc, ?settle_count by done;
      clear Hp Hl Hv Hc
  end; try assumption.

Ltac open_machine m :=
  let mt := fresh "mt" in let o := fresh "o" in let li := fresh "li" in
  let tx := fresh "tx" in let av := fresh "av" in let cp := fresh "cp" in
  let ct := fresh "ct" in let p := fresh "p" in let lg := fresh "lg" in
  let u := fresh "u" in
  destruct m as [mt [o li tx av cp ct] p lg u]; simpl in *.

(** ** The microphone permission *)

Lemma step_voice_dead m e : voice_dead m -> voice_dead (step m e).
Proof.
  revert m e. apply (step_ind (fun _ m m' => voice_dead m -> voice_dead m'));
    unfold voice_dead, voice_fields_off.
  - by intros [].
  - intros e prev m m' H Hm. specialize (H Hm). settle_closed.
  - intros m b h Hmt Hh (Hp & Hav & Hli & Hl).
    apply onPress_cases in Hh as [_ ->]. rewrite Hli.
    open_machine m. subst.
    destruct b, Platform_OS; act_simpl; count_simpl; repeat split; lia || done.
  - intros m v rest (Hp & Hav & Hli & Hl).
    open_machine m. destruct mt; act_simpl; done.
  - intros m i t r Ht (Hp & Hav & Hli & Hl).
    open_machine m. subst.
    rewrite (count_delete voice_path p i t Ht) in Hp.
    destruct t as [| | |[]| | |], r as [[]|], mt; simpl in Hp; try lia;
      act_simpl; count_simpl; repeat split; lia || done.
  - intros m Hmt (Hp & Hav & Hli & Hl).
    open_machine m. subst. act_simpl. count_simpl. repeat split; lia || done.
Qed.

Lemma run_voice_dead m evs : voice_dead m -> voice_dead (run m evs).
Proof.
  revert m. induction evs as [|e evs IH]; intros m Hm; [done|].
  apply IH, step_voice_dead, Hm.
Qed.

Lemma step_mic_wait m e : mic_wait m -> mic_wait (step m e).
Proof.
  revert m e. apply (step_ind (fun _ m m' => mic_wait m -> mic_wait m'));
    unfold mic_wait, voice_fields_off.
  - by intros [].
  - intros e prev m m' H Hm. specialize (H Hm). settle_closed.
  - intros m b h Hmt Hh (Hle & Hw).
    apply onPress_cases in Hh as [_ ->].
    open_machine m. subst.
    destruct b, Platform_OS, li, av; act_simpl; count_simpl;
      (split; [lia|]); intros Hone;
      (destruct Hw as (Hvp & Hav & Hli & Hl); [lia|]);
      repeat split; congruence || lia.
  - intros m v rest (Hle & Hw).
    open_machine m. destruct mt; act_simpl; (split; [lia|]); intros Hone;
      (destruct Hw as (Hvp & Hav & Hli & Hl); [lia|]); by repeat split.
  - intros m i t r Ht (Hle & Hw).
    open_machine m.
    rewrite (count_delete is_init_mic p i t Ht) in Hle, Hw.
    rewrite (count_delete voice_path p i t Ht) in Hw.
    pose proof (init_mic_voice_path (delete i p)).
    destruct t as [| | |[]| | |], r as [[]|], mt; simpl in *;
      act_simpl; count_simpl; (split; [lia|]); intros Hone;
      (destruct Hw as (Hvp & Hav & Hli & Hl); [lia|]);
      repeat split; congruence || lia.
  - intros m Hmt (Hle & Hw).
    open_machine m. subst. act_simpl. count_simpl. (split; [lia|]).
    intros Hone. destruct Hw as (Hvp & Hav & Hli & Hl); [lia|].
    repeat split; congruence || lia.
Qed.

Lemma mount_mic_wait : mic_wait mount.
Proof.
  unfold mic_wait, voice_fields_off, SideNav.mount, SideNav.intentEffect.
  destruct Platform_OS; act_simpl; count_simpl; (split; [lia|]); intros;
    repeat split; lia || done.
Qed.

Lemma run_mic_wait m evs : mic_wait m -> mic_wait (run m evs).
Proof.
  revert m. induction evs as [|e evs IH]; intros m Hm; [done|].
  apply IH, step_mic_wait, Hm.
Qed.

Lemma mic_denied m i r :
  mic_wait m -> pending m !! i = Some init_mic -> is_granted r = false ->
  voice_dead (step m (Settle i r)).
Proof.
  intros (Hle & Hw) Hi Hr. unfold SideNav.step. rewrite Hi, commit_settle.
  unfold voice_dead, voice_fields_off in *. settle_closed.
  open_machine m.
  rewrite (count_delete is_init_mic p i _ Hi) in Hw.
  rewrite (count_delete voice_path p i _ Hi) in Hw. simpl in Hw.
  destruct Hw as (Hvp & Hav & Hli & Hl); [lia|]. subst.
  destruct r as [[]|], mt; try done; act_simpl; count_simpl;
    repeat split; lia || done.
Qed.

Lemma step_mic_requests m e :
  (count is_mic_request (log (step m e))
   <= count is_mic_request (log m) + Nat.b2n (is_voice_press e))%nat.
Proof.
  revert m e.
  apply (step_ind (fun e m m' =>
    (count is_mic_request (log m')
     <= count is_mic_request (log m) + Nat.b2n (is_voice_press e))%nat)).
  - intros [] m; simpl; lia.
  - settle_closed.
  - intros m b h Hmt Hh. apply onPress_cases in Hh as [_ ->].
    open_machine m. subst.
    destruct b, Platform_OS, li, av; act_simpl; count_simpl; lia.
  - intros m v rest. open_machine m. destruct mt; act_simpl; lia.
  - intros m i t r Ht. open_machine m.
    destruct t as [| | |[]| | |], r as [[]|], mt; act_simpl; count_simpl; lia.
  - intros m Hmt. open_machine m. act_simpl. count_simpl. lia.
Qed.

Lemma run_mic_requests m evs :
  (count is_mic_request (log (run m evs))
   <= count is_mic_request (log m) + count is_voice_press evs)%nat.
Proof.
  revert m. induction evs as [|e evs IH]; intros m; simpl; [rewrite count_nil; lia|].
  specialize (IH (step m e)). pose proof (step_mic_requests m e).
  rewrite count_cons. unfold SideNav.run in *. simpl.
  destruct (is_voice_press e); simpl in *; lia.
Qed.

Lemma mount_mic_requests : (count is_mic_request (log mount) <= 1)%nat.
Proof.
  unfold SideNav.mount, SideNav.intentEffect.
  destruct Platform_OS; act_simpl; count_simpl; lia.
Qed.

Lemma run_app m evs1 evs2 : run m (evs1 ++ evs2) = run (run m evs1) evs2.
Proof. apply foldl_app. Qed.

(** ** The camera permission *)

Lemma step_cam_wait m e : cam_wait m -> cam_wait (step m e).
Proof.
  revert m e. apply (step_ind (fun _ m m' => cam_wait m -> cam_wait m'));
    unfold cam_wait.
  - by intros [].
  - intros e prev m m' H Hm. specialize (H Hm). settle_closed.
  - intros m b h Hmt Hh (Hle & Hw).
    apply onPress_cases in Hh as [Hcp ->].
    open_machine m. subst.
    destruct b, Platform_OS, li, av; act_simpl; count_simpl;
      (split; [lia|]); intros Hone; apply Hw; lia.
  - intros m v rest (Hle & Hw).
    open_machine m. destruct mt; act_simpl; done.
  - intros m i t r Ht (Hle & Hw).
    open_machine m.
    rewrite (count_delete is_init_task p i t Ht) in Hle, Hw.
    destruct t as [| | |[]| | |], r as [[]|], mt; simpl in *;
      act_simpl; count_simpl; (split; [lia|]); intros Hone;
      (apply Hw; lia) || lia.
  - intros m Hmt (Hle & Hw).
    open_machine m. subst. act_simpl. count_simpl. (split; [lia|]).
    intros Hone. apply Hw. lia.
Qed.

Lemma mount_cam_wait : cam_wait mount.
Proof.
  unfold cam_wait, SideNav.mount, SideNav.intentEffect.
  destruct Platform_OS; act_simpl; count_simpl; (split; [lia|done]).
Qed.

Lemma step_init_tasks m e :
  (count is_init_task (pending (step m e)) <= count is_init_task (pending m))%nat.
Proof.
  revert m e.
  apply (step_ind (fun _ m m' =>
    (count is_init_task (pending m') <= count is_init_task (pending m))%nat)).
  - intros [] m; simpl; lia.
  - settle_closed.
  - intros m b h Hmt Hh. apply onPress_cases in Hh as [_ ->].
    open_machine m. subst.
    destruct b, Platform_OS, li, av; act_simpl; count_simpl; lia.
  - intros m v rest. open_machine m. destruct mt; act_simpl; lia.
  - intros m i t r Ht. open_machine m.
    rewrite (count_delete is_init_task p i t Ht).
    destruct t as [| | |[]| | |], r as [[]|], mt; act_simpl; count_simpl; lia.
  - intros m Hmt. open_machine m. act_simpl. count_simpl. lia.
Qed.

Lemma run_init_tasks m evs :
  (count is_init_task (pending (run m evs)) <= count is_init_task (pending m))%nat.
Proof.
  revert m. induction evs as [|e evs IH]; intros m; [done|].
  etrans; [apply IH | apply step_init_tasks].
Qed.

Lemma step_cam_dead m e : cam_dead m -> cam_dead (step m e).
Proof.
  revert m e. apply (step_ind (fun _ m m' => cam_dead m -> cam_dead m'));
    unfold cam_dead.
  - by intros [].
  - intros e prev m m' H Hm. specialize (H Hm). settle_closed.
  - intros m b h Hmt Hh (Hz & Hcp).
    apply onPress_cases in Hh as [Hgr _]. by rewrite Hgr in Hcp.
  - intros m v rest (Hz & Hcp).
    open_machine m. destruct mt; act_simpl; done.
  - intros m i t r Ht (Hz & Hcp).
    open_machine m.
    rewrite (count_delete is_init_task p i t Ht) in Hz.
    destruct t as [| | |[]| | |], r as [[]|], mt; simpl in Hz; try lia;
      act_simpl; count_simpl; (split; [lia|done]).
  - intros m Hmt (Hz & Hcp).
    open_machine m. subst. act_simpl. count_simpl. (split; [lia|done]).
Qed.

Lemma cam_denied m i r :
  cam_wait m -> pending m !! i = Some init_cam -> is_granted r = false ->
  cam_dead (step m (Settle i r)).
Proof.
  intros (Hle & Hw) Hi Hr. unfold SideNav.step. rewrite Hi, commit_settle.
  unfold cam_dead. settle_closed.
  open_machine m.
  rewrite (count_delete is_init_task p i _ Hi) in Hle, Hw. simpl in Hle, Hw.
  rewrite Hw by lia.
  destruct r as [[]|], mt; try done; act_simpl; (split; [lia|done]).
Qed.

Lemma not_granted_no_camera (s : State) :
  hasCameraPermission s <> Some true -> camera_rendered (render s) = false.
Proof. unfold render. by destruct (hasCameraPermission s) as [[]|]. Qed.

Lemma trace_cam_dead m evs :
  cam_dead m ->
  Forall (fun m' => camera_rendered (render (st m')) = false) (trace m evs).
Proof.
  revert m. induction evs as [|e evs IH]; intros m Hm; simpl;
    (constructor; [apply not_granted_no_camera, Hm|]); [done|].
  apply IH, step_cam_dead, Hm.
Qed.

Lemma trace_cam_wait m pre i r post :
  cam_wait m -> pending (run m pre) !! i = Some init_cam -> is_granted r = false ->
  Forall (fun m' => camera_rendered (render (st m')) = false)
    (trace m (pre ++ Settle i r :: post)).
Proof.
  revert m. induction pre as [|e pre IH]; intros m Hm Hi Hr.
  - simpl. constructor.
    + apply not_granted_no_camera. destruct Hm as [Hle Hw].
      rewrite Hw; [done|]. simpl in Hi.
      rewrite (count_delete is_init_task _ i _ Hi). simpl. lia.
    + apply trace_cam_dead. by apply cam_denied.
  - simpl. constructor.
    + apply not_granted_no_camera. destruct Hm as [Hle Hw].
      rewrite Hw; [done|].
      pose proof (run_init_tasks m (e :: pre)) as Hmono.
      rewrite (count_delete is_init_task _ i _ Hi) in Hmono. simpl in Hmono. lia.
    + apply IH; [by apply step_cam_wait | done | done].
Qed.

(** ** Teardown *)

Lemma step_destroy_once m e :
  count is_Voice_destroy (log m) = (if mounted m then 0 else 1)%nat ->
  count is_Voice_destroy (log (step m e))
  = (if mounted (step m e) then 0 else 1)%nat.
Proof.
  revert m e.
  apply (step_ind (fun _ m m' =>
    count is_Voice_destroy (log m) = (if mounted m then 0 else 1)%nat ->
    count is_Voice_destroy (log m') = (if mounted m' then 0 else 1)%nat)).
  - by intros [].
  - intros e prev m m' H Hm. specialize (H Hm). settle_closed.
  - intros m b h Hmt Hh. apply onPress_cases in Hh as [_ ->].
    open_machine m. subst.
    destruct b, Platform_OS, li, av; act_simpl; count_simpl; lia.
  - intros m v rest. open_machine m. destruct mt; act_simpl; lia.
  - intros m i t r Ht. open_machine m.
    destruct t as [| | |[]| | |], r as [[]|], mt; act_simpl; count_simpl; lia.
  - intros m Hmt. open_machine m. subst. act_simpl. count_simpl. lia.
Qed.

Lemma run_destroy_once evs :
  count is_Voice_destroy (log (run mount evs))
  = (if mounted (run mount evs) then 0 else 1)%nat.
Proof.
  induction evs as [|e evs IH] using rev_ind.
  - unfold SideNav.mount, SideNav.intentEffect.
    destruct Platform_OS; act_simpl; by count_simpl.
  - rewrite run_app. simpl. by apply step_destroy_once.
Qed.



(** ** Listening *)

Lemma step_listening_budget m e :
  (Nat.b2n (isListening (st (step m e)))
   + match e with
     | SpeechResults _ _ => Nat.b2n (mounted m && isListening (st m))
     | _ => 0
     end
   + count is_Voice_start (log m)
   <= count is_Voice_start (log (step m e)) + Nat.b2n (isListening (st m)))%nat.
Proof.
  revert m e.
  apply (step_ind (fun e m m' =>
    (Nat.b2n (isListening (st m'))
     + match e with
       | SpeechResults _ _ => Nat.b2n (mounted m && isListening (st m))
       | _ => 0
       end
     + count is_Voice_start (log m)
     <= count is_Voice_start (log m') + Nat.b2n (isListening (st m)))%nat)).
  - intros [] m; simpl; lia.
  - settle_closed.
  - intros m b h Hmt Hh. apply onPress_cases in Hh as [_ ->].
    open_machine m. subst.
    destruct b, Platform_OS, li, av; act_simpl; count_simpl; lia.
  - intros m v rest. open_machine m. destruct mt, li; act_simpl; lia.
  - intros m i t r Ht. open_machine m.
    destruct t as [| | |[]| | |], r as [[]|], mt, li;
      act_simpl; count_simpl; lia.
  - intros m Hmt. open_machine m. destruct li; act_simpl; count_simpl; lia.
Qed.

Lemma run_listening_budget m evs :
  (Nat.b2n (isListening (st (run m evs))) + results_while_listening m evs
   + count is_Voice_start (log m)
   <= count is_Voice_start (log (run m evs)) + Nat.b2n (isListening (st m)))%nat.
Proof.
  revert m. induction evs as [|e evs IH]; intros m; simpl; [lia|].
  specialize (IH (step m e)). pose proof (step_listening_budget m e).
  unfold SideNav.run in *. simpl. lia.
Qed.

(** ** The drawer *)

Ltac settle_simpl :=
  rewrite ?commit_settle;
  unfold SideNav.settle, deps_changed, SideNav.intentEffect;
  act_simpl; rewrite ?String.eqb_refl; simpl.

Lemma interpret_open t :
  interpret t = OpenDrawer <-> JS.includes (JS.toLowerCase t) "open menu" = true.
Proof.
  unfold interpret. destruct (JS.includes _ "open menu"); [done|].
  by destruct (JS.includes _ "close menu").
Qed.

Lemma interpret_close t :
  interpret t = CloseDrawer <->
  JS.includes (JS.toLowerCase t) "open menu" = false /\
  JS.includes (JS.toLowerCase t) "close menu" = true.
Proof.
  unfold interpret. destruct (JS.includes _ "open menu");
    [|destruct (JS.includes _ "close menu")]; intuition congruence.
Qed.

Lemma interpret_none t :
  interpret t = NoIntent <->
  JS.includes (JS.toLowerCase t) "open menu" = false /\
  JS.includes (JS.toLowerCase t) "close menu" = false.
Proof.
  unfold interpret. destruct (JS.includes _ "open menu");
    [|destruct (JS.includes _ "close menu")]; intuition congruence.
Qed.

(** What a press on the menu or the close button leaves behind. *)
Lemma press_menu_isOpen m b :
  mounted m = true -> hasCameraPermission (st m) = Some true ->
  b = MenuButton \/ b = CloseButton ->
  isOpen (st (step m (Press b)))
  = match interpret (spokenText (st m)) with
    | OpenDrawer => true
    | CloseDrawer => false
    | NoIntent => negb (isOpen (st m))
    end.
Proof.
  intros Hmt Hcp Hb. unfold SideNav.step, render, onPress.
  rewrite Hmt, Hcp.
  replace (match b with
           | MenuButton | CloseButton => h_toggleMenu
           | VoiceButton => _
           | CameraFlipButton => h_toggleCameraType
           end) with h_toggleMenu by (by destruct Hb as [-> | ->]).
  unfold interpret. open_machine m. subst. settle_simpl.
  destruct o; simpl;
    destruct (JS.includes (JS.toLowerCase tx) "open menu");
    destruct (JS.includes (JS.toLowerCase tx) "close menu"); reflexivity.
Qed.

(** * The claims *)

(** C1.  Interpreting a transcript is a function of its text alone and
    a case-insensitive substring match: the text contains "open menu"
    (ignoring case) exactly when the intent is [OpenDrawer]; it contains
    "close menu" and not "open menu" exactly when the intent is
    [CloseDrawer]; it contains neither exactly when there is no intent; so
    "open menu" wins when both are present.  Texts that differ only in
    case get the same intent.  The four sample utterances come out as
    stated, and the transcript effect of the component acts on exactly
    this intent. *)
Theorem C1_interpret_case_insensitive_substring :
  (forall t, interpret t = OpenDrawer <-> contains_ci "open menu" t) /\
  (forall t, interpret t = CloseDrawer <->
             ~ contains_ci "open menu" t /\ contains_ci "close menu" t) /\
  (forall t, interpret t = NoIntent <->
             ~ contains_ci "open menu" t /\ ~ contains_ci "close menu" t) /\
  (forall t1 t2, ci_eq t1 t2 -> interpret t1 = interpret t2) /\
  (forall t, interpret (JS.toLowerCase t) = interpret t) /\
  interpret "OPEN MENU please" = OpenDrawer /\
  interpret "please close menu now" = CloseDrawer /\
  interpret "hello world" = NoIntent /\
  interpret "open menu then close menu" = OpenDrawer /\
  (forall r, intentEffect r =
             match interpret (spokenText r) with
             | OpenDrawer => if negb (isOpen r) then toggleMenu SCREEN_WIDTH r else skip
             | CloseDrawer => if isOpen r then toggleMenu SCREEN_WIDTH r else skip
             | NoIntent => skip
             end).
Proof.
  assert (forall t, JS.includes (JS.toLowerCase t) "open menu" = true
                    <-> contains_ci "open menu" t) as Hopen
    by (intros t; apply (includes_lower_contains_ci "open menu")).
  assert (forall t, JS.includes (JS.toLowerCase t) "close menu" = true
                    <-> contains_ci "close menu" t) as Hclose
    by (intros t; apply (includes_lower_contains_ci "close menu")).
  repeat split; try reflexivity.
  - intros H. by apply Hopen, interpret_open.
  - intros H. by apply interpret_open, Hopen.
  - apply interpret_close in H as [Ho _]. rewrite <- Hopen. congruence.
  - apply interpret_close in H as [_ Hc]. by apply Hclose.
  - intros [Ho Hc]. apply interpret_close. split.
    + rewrite <- Hopen in Ho. by destruct (JS.includes _ "open menu").
    + by apply Hclose.
  - apply interpret_none in H as [Ho _]. rewrite <- Hopen. congruence.
  - apply interpret_none in H as [_ Hc]. rewrite <- Hclose. congruence.
  - intros [Ho Hc]. apply interpret_none.
    rewrite <- Hopen in Ho. rewrite <- Hclose in Hc.
    split; [by destruct (JS.includes _ "open menu")
           | by destruct (JS.includes _ "close menu")].
  - intros t1 t2 H. unfold interpret, ci_eq in *. by rewrite H.
  - intros t. unfold interpret. by rewrite JSFacts.toLowerCase_idemp.
  - intros r. unfold SideNav.intentEffect, interpret.
    by repeat case_match.
Qed.

(** C3.  A request for the drawer position the drawer already has
    changes nothing about the drawer and starts no animation: the
    committed position is the same and the call log is untouched.  (Only
    a voice command can be such a request: a press always asks for the
    other position.) *)
Theorem C3_request_for_current_position_is_noop (m : Machine) (e : Event) (x : bool) :
  request_target (st m) e = Some x ->
  isOpen (st m) = x ->
  isOpen (st (step m e)) = x /\ log (step m e) = log m.
Proof.
  intros Hreq Hx. destruct e as [[]|v rest|i r|]; simpl in Hreq; try done.
  - injection Hreq as Hreq. rewrite <- Hx in Hreq. by destruct (isOpen (st m)).
  - injection Hreq as Hreq. rewrite <- Hx in Hreq. by destruct (isOpen (st m)).
  - unfold SideNav.step. open_machine m. subst x.
    destruct (interpret v) eqn:Hv; simplify_eq.
    + apply interpret_open in Hv. destruct mt; settle_simpl; rewrite ?Hv;
        repeat case_match; done.
    + apply interpret_close in Hv as [Ho Hc].
      destruct mt; settle_simpl; rewrite ?Ho, ?Hc; repeat case_match; done.
Qed.


(** C5.  Once the microphone permission asked for at mount has come
    back anything but granted, then whatever happens afterwards
    [Voice.start] has never been called, voice stays unavailable and the
    screen never listens; and permission is asked again only when the user
    presses the voice button: the requests made never exceed one plus the
    presses on that button.  A later request that is not granted does
    not start the engine either. *)
Theorem C5_mic_denied_never_starts_voice :
  (forall (pre post : list Event) (i : nat) (r : Settled),
      pending (run mount pre) !! i = Some init_mic ->
      is_granted r = false ->
      let m := run (step (run mount pre) (Settle i r)) post in
      count is_Voice_start (log m) = 0%nat /\
      isVoiceAvailable (st m) = false /\
      isListening (st m) = false /\
      (count is_mic_request (log m)
       <= 1 + count is_voice_press (pre ++ post))%nat) /\
  (forall (m : Machine) (i : nat) (captured : bool) (r : Settled),
      pending m !! i = Some (start_mic captured) ->
      is_granted r = false ->
      count is_Voice_start (log (step m (Settle i r)))
      = count is_Voice_start (log m) /\
      isListening (st (step m (Settle i r))) = isListening (st m)).
Proof.
  split.
  - intros pre post i r Hi Hr m.
    assert (voice_dead m) as (_ & Hav & Hli & Hl).
    { apply run_voice_dead, mic_denied; [|done..].
      apply run_mic_wait, mount_mic_wait. }
    repeat split; try done.
    replace m with (run mount (pre ++ Settle i r :: post))
      by (by rewrite run_app).
    pose proof (run_mic_requests mount (pre ++ Settle i r :: post)) as H.
    pose proof mount_mic_requests.
    rewrite !count_app, count_cons in *. simpl in *. lia.
  - intros m i captured r Hi Hr. unfold SideNav.step.
    rewrite Hi, commit_settle. settle_closed.
    open_machine m.
    destruct r as [[]|], mt; try done; act_simpl; count_simpl; (split; [lia|done]).
Qed.

(** C6.  The [Camera] element is rendered exactly when the camera
    permission is known to be granted; and in every execution in which the
    camera permission request comes back anything but granted, no machine
    the execution goes through, before or after, renders it. *)
Theorem C6_camera_only_when_granted :
  (forall s, camera_rendered (render s) = true <-> hasCameraPermission s = Some true) /\
  (forall (pre post : list Event) (i : nat) (r : Settled),
      pending (run mount pre) !! i = Some init_cam ->
      is_granted r = false ->
      Forall (fun m => camera_rendered (render (st m)) = false)
        (trace mount (pre ++ Settle i r :: post))).
Proof.
  split.
  - intros s. unfold render. by destruct (hasCameraPermission s) as [[]|].
  - intros pre post i r Hi Hr. by apply trace_cam_wait; [apply mount_cam_wait|..].
Qed.

(** C7, as the code has it.  A rejected [Voice.start] puts a mounted
    screen back to not listening; a rejected [Voice.stop] leaves the
    listening flag as it was.  Either way the failure is logged, exactly
    one alert is shown, and the rejection stops there: no promise of the
    component is left rejected. *)
Theorem C7_engine_failures_are_caught (m : Machine) (i : nat) :
  (pending m !! i = Some start_voice -> mounted m = true ->
   let m' := step m (Settle i Rejected) in
   isListening (st m') = false /\
   log m' = (log m ++
             [console_error "Failed to start speech recognition";
              Alert_alert "Error"
                "Failed to start speech recognition. Please try again."])%list /\
   unhandled m' = unhandled m) /\
  (pending m !! i = Some stop_voice ->
   let m' := step m (Settle i Rejected) in
   isListening (st m') = isListening (st m) /\
   log m' = (log m ++
             [console_error "Failed to stop speech recognition";
              Alert_alert "Error"
                "Failed to stop speech recognition. Please try again."])%list /\
   unhandled m' = unhandled m).
Proof.
  split.
  - intros Hi Hmt. unfold SideNav.step. rewrite Hi.
    open_machine m. subst. settle_simpl.
    rewrite Bool.eqb_reflx. simpl. by rewrite <- app_assoc.
  - intros Hi. unfold SideNav.step. rewrite Hi.
    open_machine m. settle_simpl. rewrite Bool.eqb_reflx, andb_false_r. simpl.
    by rewrite <- app_assoc.
Qed.

(** C8.  On a screen that shows the camera, one press on the flip
    button changes the facing to the other value and a second press
    brings it back; the toggle itself swaps [back] and [front]. *)
Theorem C8_toggle_camera_twice_is_identity (m : Machine) :
  mounted m = true ->
  hasCameraPermission (st m) = Some true ->
  let m1 := step m (Press CameraFlipButton) in
  let m2 := step m1 (Press CameraFlipButton) in
  cameraType (st m1) = match cameraType (st m) with back => front | front => back end /\
  cameraType (st m1) <> cameraType (st m) /\
  cameraType (st m2) = cameraType (st m).
Proof.
  intros Hmt Hcp. unfold SideNav.step, render, onPress.
  open_machine m. subst. settle_simpl.
  rewrite Bool.eqb_reflx. simpl. settle_simpl. rewrite Bool.eqb_reflx. simpl.
  by destruct ct.
Qed.

(** C9.  While the transcript on screen contains "open menu", anything
    that closes the drawer without changing the transcript is undone by
    the transcript effect, which starts the opening animation again; in
    particular a press on the menu or close button of an open drawer
    starts the closing and then the opening animation and leaves the
    drawer open.  The same holds the other way round for a transcript
    with "close menu" and no "open menu". *)
Theorem C9_stale_transcript_reverts_drawer :
  (forall (a : Action) (m : Machine),
      mounted (a m) = true ->
      spokenText (st (a m)) = spokenText (st m) ->
      (interpret (spokenText (st m)) = OpenDrawer ->
       isOpen (st m) = true -> isOpen (st (a m)) = false ->
       isOpen (st (commit a m)) = true /\
       log (commit a m) = (log (a m) ++ [Animated_timing_start 0 200])%list) /\
      (interpret (spokenText (st m)) = CloseDrawer ->
       isOpen (st m) = false -> isOpen (st (a m)) = true ->
       isOpen (st (commit a m)) = false /\
       log (commit a m)
       = (log (a m) ++ [Animated_timing_start (- SCREEN_WIDTH) 200])%list)) /\
  (forall (m : Machine) (b : Button),
      mounted m = true -> hasCameraPermission (st m) = Some true ->
      b = MenuButton \/ b = CloseButton ->
      (interpret (spokenText (st m)) = OpenDrawer -> isOpen (st m) = true ->
       isOpen (st (step m (Press b))) = true /\
       log (step m (Press b))
       = (log m ++ [Animated_timing_start (- SCREEN_WIDTH) 200;
                    Animated_timing_start 0 200])%list) /\
      (interpret (spokenText (st m)) = CloseDrawer -> isOpen (st m) = false ->
       isOpen (st (step m (Press b))) = false /\
       log (step m (Press b))
       = (log m ++ [Animated_timing_start 0 200;
                    Animated_timing_start (- SCREEN_WIDTH) 200])%list)).
Proof.
  split.
  - intros a m Hmt Htx. rewrite commit_settle.
    unfold SideNav.settle, deps_changed, SideNav.intentEffect.
    rewrite Hmt, Htx, String.eqb_refl.
    destruct (a m) as [mt' [o' li' tx' av' cp' ct'] p' lg' u'].
    simpl in *. subst. split.
    + intros Ho -> ->. apply interpret_open in Ho. rewrite Ho. by act_simpl.
    + intros Hc -> ->. apply interpret_close in Hc as [-> ->]. by act_simpl.
  - intros m b Hmt Hcp Hb. unfold SideNav.step, render, onPress.
    rewrite Hmt, Hcp.
    replace (match b with
             | MenuButton | CloseButton => h_toggleMenu
             | VoiceButton => _
             | CameraFlipButton => h_toggleCameraType
             end) with h_toggleMenu by (by destruct Hb as [-> | ->]).
    open_machine m. subst. split.
    + intros Ho ->. apply interpret_open in Ho. settle_simpl. rewrite Ho.
      simpl. by rewrite <- app_assoc.
    + intros Hc ->. apply interpret_close in Hc as [Ho Hc]. settle_simpl.
      rewrite Ho, Hc. simpl. by rewrite <- app_assoc.
Qed.

Lemma step_result_stored (m : Machine) (value0 : string) (rest : list string) :
  mounted m = true ->
  let m' := step m (SpeechResults value0 rest) in
  mounted m' = true /\
  isListening (st m') = false /\
  spokenText (st m') = value0 /\
  count is_Voice_stop (log m') = count is_Voice_stop (log m) /\
  count is_Voice_start (log m') = count is_Voice_start (log m) /\
  pending m' = pending m.
Proof.
  intros Hmt m'. subst m'. unfold SideNav.step. rewrite commit_settle.
  destruct (settle_frame (st m) (onSpeechResults value0 m))
    as (-> & _ & -> & -> & _).
  rewrite settle_mounted, !settle_count by done.
  open_machine m. subst. by act_simpl.
Qed.

Lemma run_results_stored (m : Machine) (texts : list string) :
  mounted m = true ->
  let evs := map (fun t => SpeechResults t []) texts in
  mounted (run m evs) = true /\
  results_stored m evs = List.length texts /\
  spokenText (st (run m evs)) = default (spokenText (st m)) (last texts) /\
  count is_Voice_start (log (run m evs)) = count is_Voice_start (log m).
Proof.
  revert m. induction texts as [|t texts IH]; intros m Hmt; [done|].
  destruct (step_result_stored m t [] Hmt) as (Hmt' & _ & Htx & _ & Hst & _).
  destruct (IH _ Hmt') as (IH1 & IH2 & IH3 & IH4).
  cbn [map]. change (run m (?e :: ?l)) with (run (step m e) l).
  cbn [SideNav.results_stored]. rewrite Hmt, IH2, IH3, IH4, Htx, Hst, last_cons.
  repeat split; [done | by destruct (last texts)].
Qed.

(** C10, as the code has it.  A speech result delivered to a mounted
    screen leaves it not listening, with the delivered text stored as
    the transcript, although neither [Voice.stop] nor [Voice.start] is
    called and no task is parked or resumed.  Hence the results that
    arrive while the screen is listening number at most the calls of
    [Voice.start].  But the screen stores every result it is given,
    listening or not: any number of results in a row are all stored, the
    last one ending up on screen, without a further [Voice.start]. *)
Theorem C10_result_ends_listening :
  (forall (m : Machine) (value0 : string) (rest : list string),
      mounted m = true ->
      let m' := step m (SpeechResults value0 rest) in
      isListening (st m') = false /\
      spokenText (st m') = value0 /\
      count is_Voice_stop (log m') = count is_Voice_stop (log m) /\
      count is_Voice_start (log m') = count is_Voice_start (log m) /\
      pending m' = pending m) /\
  (forall evs : list Event,
      (results_while_listening mount evs
       <= count is_Voice_start (log (run mount evs)))%nat) /\
  (forall (m : Machine) (texts : list string),
      mounted m = true ->
      let evs := map (fun t => SpeechResults t []) texts in
      results_stored m evs = List.length texts /\
      spokenText (st (run m evs)) = default (spokenText (st m)) (last texts) /\
      count is_Voice_start (log (run m evs)) = count is_Voice_start (log m)).
Proof.
  repeat apply conj.
  - intros m v rest Hmt. by apply step_result_stored.
  - intros evs. pose proof (run_listening_budget mount evs) as H.
    assert (isListening (st mount) = false /\
            count is_Voice_start (log mount) = 0%nat) as [Hli Hl].
    { unfold SideNav.mount, SideNav.intentEffect.
      destruct Platform_OS; act_simpl; by count_simpl. }
    rewrite Hli, Hl in H. simpl in H. lia.
  - intros m texts Hmt. by apply run_results_stored.
Qed.

(** * Further properties of the component *)

(** ** The drawer follows the transcript *)

Lemma intentEffect_agrees (m : Machine) :
  mounted m = true -> drawer_agrees (intentEffect (st m) m).
Proof.
  intros Hmt. open_machine m. subst.
  unfold drawer_agrees, SideNav.intentEffect, interpret. simpl.
  destruct (JS.includes (JS.toLowerCase tx) "open menu") eqn:Ho;
    destruct (JS.includes (JS.toLowerCase tx) "close menu") eqn:Hc;
    destruct o; act_simpl; rewrite ?Ho, ?Hc; done.
Qed.

(** A commit keeps the agreement when the action itself keeps the
    component mounted, or leaves the state of an unmounted one alone. *)
Lemma commit_agrees (a : Action) (m : Machine) :
  (mounted (a m) = false -> st (a m) = st m) ->
  drawer_agrees m -> drawer_agrees (commit a m).
Proof.
  intros Hfrozen Hm. rewrite commit_settle. unfold SideNav.settle.
  destruct (mounted (a m)) eqn:Hmt; simpl.
  - destruct (deps_changed (st m) (st (a m))) eqn:Hd.
    + by apply intentEffect_agrees.
    + unfold deps_changed in Hd. apply orb_false_elim in Hd as [Htx Ho].
      apply negb_false_iff in Htx, Ho.
      apply String.eqb_eq in Htx. apply Bool.eqb_prop in Ho.
      unfold drawer_agrees in *. by rewrite <- Htx, <- Ho.
  - unfold drawer_agrees in *. by rewrite (Hfrozen eq_refl).
Qed.

Lemma step_agrees m e : drawer_agrees m -> drawer_agrees (step m e).
Proof.
  intros Hm. destruct e as [b|v rest|i r|]; unfold SideNav.step.
  - destruct (mounted m) eqn:Hmt; [|done].
    destruct (onPress _ b) as [h|] eqn:Hh; [|done].
    apply commit_agrees; [|done].
    apply onPress_cases in Hh as [_ ->]. clear Hm.
    open_machine m. subst.
    destruct b, Platform_OS, li, av; act_simpl; done.
  - apply commit_agrees; [|done]. clear Hm.
    open_machine m. destruct mt; act_simpl; done.
  - destruct (pending m !! i) as [t|] eqn:Ht; [|done].
    apply commit_agrees; [|done]. clear Hm Ht.
    open_machine m.
    destruct t as [| | |[]| | |], r as [[]|], mt; act_simpl; done.
  - destruct (mounted m) eqn:Hmt; [|done].
    unfold drawer_agrees in *. open_machine m. by act_simpl.
Qed.

(** X1.  Whenever the screen has finished handling an event, that
    is, once the handler's updates are committed and the transcript
    effect they trigger has run, the drawer is where the transcript on
    screen wants it: open if the transcript contains "open menu", closed
    if it contains "close menu" and not "open menu".  (The commit between
    a handler and the effect need not be such a state: that is where a
    press against the transcript shows for a moment.) *)
Theorem X1_drawer_agrees_with_transcript_after_every_event (evs : list Event) :
  drawer_agrees (run mount evs).
Proof.
  induction evs as [|e evs IH] using rev_ind.
  - unfold drawer_agrees, SideNav.mount, SideNav.intentEffect.
    destruct Platform_OS; by act_simpl.
  - rewrite run_app. by apply step_agrees.
Qed.

(** X2.  On a mounted screen whose drawer agrees with its transcript,
    a speech result puts its text on screen and moves the drawer as its
    intent says: open for "open menu", closed for "close menu" without
    "open menu", untouched otherwise; and it starts one animation if the
    drawer moved and none if it did not. *)
Theorem X2_speech_result_moves_drawer_by_intent
    (m : Machine) (value0 : string) (rest : list string) :
  mounted m = true ->
  drawer_agrees m ->
  let m' := step m (SpeechResults value0 rest) in
  isOpen (st m')
  = match interpret value0 with
    | OpenDrawer => true
    | CloseDrawer => false
    | NoIntent => isOpen (st m)
    end /\
  log m'
  = (log m ++
     if Bool.eqb (isOpen (st m')) (isOpen (st m)) then []
     else [Animated_timing_start (if isOpen (st m') then 0 else - SCREEN_WIDTH) 200])%list.
Proof.
  intros Hmt Hm. unfold SideNav.step, drawer_agrees, interpret in *.
  open_machine m. subst. settle_simpl.
  destruct (String.eqb tx value0) eqn:Htx; simpl.
  - apply String.eqb_eq in Htx. subst value0.
    destruct (JS.includes (JS.toLowerCase tx) "open menu");
      [|destruct (JS.includes (JS.toLowerCase tx) "close menu")];
      destruct o; simpl; rewrite ?app_nil_r; done.
  - destruct (JS.includes (JS.toLowerCase value0) "open menu");
      [|destruct (JS.includes (JS.toLowerCase value0) "close menu")];
      destruct o; simpl; rewrite ?app_nil_r; done.
Qed.

Lemma press_without_command (m : Machine) (b : Button) :
  mounted m = true ->
  hasCameraPermission (st m) = Some true ->
  interpret (spokenText (st m)) = NoIntent ->
  b = MenuButton \/ b = CloseButton ->
  step m (Press b)
  = mkMachine true
      (mkState (negb (isOpen (st m))) (isListening (st m)) (spokenText (st m))
         (isVoiceAvailable (st m)) (hasCameraPermission (st m)) (cameraType (st m)))
      (pending m)
      (log m ++ [Animated_timing_start
                   (if isOpen (st m) then - SCREEN_WIDTH else 0) 200])
      (unhandled m).
Proof.
  intros Hmt Hcp Hni Hb. apply interpret_none in Hni as [Ho Hc].
  unfold SideNav.step, render, onPress. rewrite Hmt, Hcp.
  replace (match b with
           | MenuButton | CloseButton => h_toggleMenu
           | VoiceButton => _
           | CameraFlipButton => h_toggleCameraType
           end) with h_toggleMenu by (by destruct Hb as [-> | ->]).
  open_machine m. subst. settle_simpl. rewrite Ho, Hc.
  by destruct o.
Qed.

(** X3.  While the transcript on screen carries no command, the menu
    and close buttons toggle the drawer: one press moves it to the other
    position with one animation towards it, and a second press brings it
    back. *)
Theorem X3_press_toggles_drawer_without_command (m : Machine) (b b' : Button) :
  mounted m = true ->
  hasCameraPermission (st m) = Some true ->
  interpret (spokenText (st m)) = NoIntent ->
  b = MenuButton \/ b = CloseButton ->
  b' = MenuButton \/ b' = CloseButton ->
  let m1 := step m (Press b) in
  let m2 := step m1 (Press b') in
  isOpen (st m1) = negb (isOpen (st m)) /\
  log m1 = (log m ++ [Animated_timing_start
                        (if isOpen (st m) then - SCREEN_WIDTH else 0) 200])%list /\
  isOpen (st m2) = isOpen (st m) /\
  log m2 = (log m1 ++ [Animated_timing_start
                         (if isOpen (st m) then 0 else - SCREEN_WIDTH) 200])%list.
Proof.
  intros Hmt Hcp Hni Hb Hb' m1 m2.
  pose proof (press_without_command m b Hmt Hcp Hni Hb) as H1.
  fold m1 in H1.
  assert (mounted m1 = true /\ hasCameraPermission (st m1) = Some true /\
          interpret (spokenText (st m1)) = NoIntent) as (Hmt1 & Hcp1 & Hni1)
    by (by rewrite H1).
  pose proof (press_without_command m1 b' Hmt1 Hcp1 Hni1 Hb') as H2.
  fold m2 in H2. rewrite H2, H1. simpl. by destruct (isOpen (st m)).
Qed.

(** ** The drawer and its animation *)

Local Abbreviation drawer_offset := (SideNav.drawer_offset SCREEN_WIDTH).
Local Abbreviation drawer_in_step := (SideNav.drawer_in_step SCREEN_WIDTH).

Lemma last_animation_snoc (l : list Call) (c : Call) :
  last_animation (l ++ [c])
  = match c with
    | Animated_timing_start v _ => Some v
    | _ => last_animation l
    end.
Proof.
  induction l as [|x l IH]; simpl; [by destruct c|].
  rewrite IH. destruct c; try done; by destruct (last_animation l).
Qed.

Ltac in_step_simpl :=
  unfold SideNav.drawer_in_step, SideNav.drawer_offset in *; act_simpl;
  rewrite ?last_animation_snoc; simpl;
  repeat match goal with
    | H : _ /\ _ |- _ => destruct H
    | |- _ /\ _ => split
    | |- Forall _ (_ ++ _) => apply Forall_app
    | |- Forall _ [_] => apply Forall_singleton
    end; simpl; auto.

Lemma intentEffect_in_step (m : Machine) :
  mounted m = true ->
  drawer_in_step m -> drawer_in_step (intentEffect (st m) m).
Proof.
  intros Hmt Hm. open_machine m. subst. unfold SideNav.intentEffect. simpl.
  destruct (JS.includes (JS.toLowerCase tx) "open menu");
    [|destruct (JS.includes (JS.toLowerCase tx) "close menu")];
    destruct o; simpl; in_step_simpl.
Qed.

Lemma step_in_step m e : drawer_in_step m -> drawer_in_step (step m e).
Proof.
  revert m e.
  apply (step_ind (fun _ m m' => drawer_in_step m -> drawer_in_step m')).
  - by intros [].
  - intros e prev m m' H Hm. specialize (H Hm). unfold SideNav.settle.
    destruct (mounted m' && _) eqn:Hc; [|done].
    apply andb_prop in Hc as [Hmt _]. by apply intentEffect_in_step.
  - intros m b h Hmt Hh Hm. apply onPress_cases in Hh as [_ ->].
    open_machine m. subst.
    destruct b, Platform_OS, li, av, o; in_step_simpl.
  - intros m v rest Hm. open_machine m. destruct mt; in_step_simpl.
  - intros m i t r Ht Hm. open_machine m.
    destruct t as [| | |[]| | |], r as [[]|], mt; in_step_simpl.
  - intros m Hmt Hm. open_machine m. in_step_simpl.
Qed.

(** X4.  In every state the screen can reach, the drawer's animated
    offset is at, or heading for, the end that matches [isOpen]: 0 when
    open, [-SCREEN_WIDTH] when closed (where it starts); and every
    animation ever started is a 200 ms slide to one of those two ends. *)
Theorem X4_animation_always_matches_drawer_state (evs : list Event) :
  drawer_offset (run mount evs)
  = (if isOpen (st (run mount evs)) then 0 else - SCREEN_WIDTH) /\
  Forall (fun c => match c with
                   | Animated_timing_start v d =>
                       (v = 0 \/ v = - SCREEN_WIDTH) /\ d = 200
                   | _ => True
                   end) (log (run mount evs)).
Proof.
  change (drawer_in_step (run mount evs)).
  induction evs as [|e evs IH] using rev_ind.
  - unfold SideNav.mount, SideNav.intentEffect.
    destruct Platform_OS; in_step_simpl.
  - rewrite run_app. by apply step_in_step.
Qed.

(** X5.  Only a press on the menu or close button and a speech result
    can move the drawer: every other event (the voice and camera-flip
    buttons, a settling permission or engine promise, unmounting) leaves
    [isOpen] and the transcript as they are and starts no animation. *)
Theorem X5_other_events_leave_drawer_alone (m : Machine) (e : Event) :
  moves_drawer e = false ->
  isOpen (st (step m e)) = isOpen (st m) /\
  spokenText (st (step m e)) = spokenText (st m) /\
  count is_animation (log (step m e)) = count is_animation (log m).
Proof.
  intros He. destruct e as [[]|v rest|i r|]; try done; unfold SideNav.step.
  - open_machine m. destruct mt, cp as [[]|]; try done. simpl.
    destruct li, Platform_OS, av; settle_simpl;
      rewrite ?Bool.eqb_reflx, ?andb_false_r; simpl; count_simpl;
      repeat split; lia.
  - open_machine m. destruct mt, cp as [[]|]; try done. simpl.
    settle_simpl. rewrite Bool.eqb_reflx. simpl. done.
  - destruct (pending m !! i) as [t|] eqn:Ht; [|done]. clear Ht.
    open_machine m.
    destruct t as [| | |[]| | |], r as [[]|], mt; settle_simpl;
      rewrite ?Bool.eqb_reflx, ?andb_false_r; simpl; count_simpl;
      repeat split; lia.
  - open_machine m. destruct mt; act_simpl; count_simpl; repeat split; lia.
Qed.

(** X6.  The camera facing changes on a press of the flip button and
    on nothing else. *)
Theorem X6_only_flip_button_changes_camera (m : Machine) (e : Event) :
  e <> Press CameraFlipButton ->
  cameraType (st (step m e)) = cameraType (st m).
Proof.
  revert m e.
  apply (step_ind (fun e m m' =>
    e <> Press CameraFlipButton -> cameraType (st m') = cameraType (st m))).
  - by intros [].
  - intros e prev m m' H He.
    destruct (settle_frame prev m') as (_ & _ & _ & _ & _ & _ & -> & _). auto.
  - intros m b h Hmt Hh Hb. apply onPress_cases in Hh as [_ ->].
    open_machine m.
    destruct b, Platform_OS, li, av, mt; try done; act_simpl; done.
  - intros m v rest _. open_machine m. destruct mt; by act_simpl.
  - intros m i t r Ht _. open_machine m.
    destruct t as [| | |[]| | |], r as [[]|], mt; by act_simpl.
  - intros m Hmt _. open_machine m. by act_simpl.
Qed.

(** ** The mount sequence *)

Ltac frame_closed :=
  intros;
  match goal with
  | |- context [SideNav.settle _ ?prev ?m] =>
      let Hp := fresh "Hp" in let Hu := fresh "Hu" in let Hl := fresh "Hl" in
      let Hv := fresh "Hv" in let Hc := fresh "Hc" in
      destruct (settle_frame prev m) as (Hp & Hu & Hl & _ & Hv & Hc & _);
      rewrite ?settle_mounted, ?Hp, ?Hu, ?Hl, ?Hv, ?Hc, ?settle_count by done;
      clear Hp Hu Hl Hv Hc
  end; try assumption.

Lemma step_init_once m e :
  (count is_camera_call (log m) + count is_pre_cam (pending m) = 1)%nat /\
  (count is_isAvailable (log m) + count is_init_mic (pending m) <= 1)%nat ->
  (count is_camera_call (log (step m e))
   + count is_pre_cam (pending (step m e)) = 1)%nat /\
  (count is_isAvailable (log (step m e)) + count is_init_mic (pending (step m e)) <= 1)%nat.
Proof.
  revert m e.
  apply (step_ind (fun _ m m' =>
    (count is_camera_call (log m) + count is_pre_cam (pending m) = 1)%nat /\
    (count is_isAvailable (log m) + count is_init_mic (pending m) <= 1)%nat ->
    (count is_camera_call (log m') + count is_pre_cam (pending m') = 1)%nat /\
    (count is_isAvailable (log m') + count is_init_mic (pending m') <= 1)%nat)).
  - by intros [].
  - intros e prev m m' H Hm. specialize (H Hm). frame_closed.
  - intros m b h Hmt Hh Hm. apply onPress_cases in Hh as [_ ->].
    open_machine m. subst.
    destruct b, Platform_OS, li, av; act_simpl; count_simpl; lia.
  - intros m v rest Hm. open_machine m. destruct mt; act_simpl; lia.
  - intros m i t r Ht Hm. open_machine m.
    rewrite (count_delete is_pre_cam p i t Ht) in Hm.
    rewrite (count_delete is_init_mic p i t Ht) in Hm.
    destruct t as [| | |[]| | |], r as [[]|], mt; simpl in Hm;
      act_simpl; count_simpl; lia.
  - intros m Hmt Hm. open_machine m. subst. act_simpl. count_simpl. lia.
Qed.

(** X7.  Per mount, [init] asks for the camera permission exactly once,
    as soon as it is past the microphone and availability steps and
    whatever their outcome was (granted or denied, available or not,
    fulfilled or rejected), and never again; and it queries
    [Voice.isAvailable] at most once. *)
Theorem X7_init_requests_camera_exactly_once (evs : list Event) :
  (count is_camera_call (log (run mount evs))
   + count is_pre_cam (pending (run mount evs)) = 1)%nat /\
  (count is_isAvailable (log (run mount evs)) <= 1)%nat.
Proof.
  assert ((count is_camera_call (log (run mount evs))
           + count is_pre_cam (pending (run mount evs)) = 1)%nat /\
          (count is_isAvailable (log (run mount evs))
           + count is_init_mic (pending (run mount evs)) <= 1)%nat) as [H1 H2].
  { induction evs as [|e evs IH] using rev_ind.
    - unfold SideNav.mount, SideNav.intentEffect.
      destruct Platform_OS; act_simpl; count_simpl; lia.
    - rewrite run_app. by apply step_init_once. }
  split; [done | lia].
Qed.

(** ** The camera answer is final *)

Lemma step_cam_final c m e : cam_final c m -> cam_final c (step m e).
Proof.
  revert m e. apply (step_ind (fun _ m m' => cam_final c m -> cam_final c m'));
    unfold cam_final.
  - by intros [].
  - intros e prev m m' H Hm. specialize (H Hm). frame_closed.
  - intros m b h Hmt Hh (Hz & Hcp). apply onPress_cases in Hh as [_ ->].
    open_machine m. subst.
    destruct b, Platform_OS, li, av; act_simpl; count_simpl; (split; [lia|done]).
  - intros m v rest (Hz & Hcp). open_machine m. destruct mt; act_simpl; done.
  - intros m i t r Ht (Hz & Hcp). open_machine m.
    rewrite (count_delete is_init_task p i t Ht) in Hz.
    destruct t as [| | |[]| | |], r as [[]|], mt; simpl in Hz; try lia;
      act_simpl; count_simpl; (split; [lia|done]).
  - intros m Hmt (Hz & Hcp). open_machine m. subst. act_simpl. count_simpl.
    (split; [lia|done]).
Qed.

Lemma run_cam_final c m evs : cam_final c m -> cam_final c (run m evs).
Proof.
  revert m. induction evs as [|e evs IH]; intros m Hm; [done|].
  apply IH, step_cam_final, Hm.
Qed.

Lemma run_cam_wait m evs : cam_wait m -> cam_wait (run m evs).
Proof.
  revert m. induction evs as [|e evs IH]; intros m Hm; [done|].
  apply IH, step_cam_wait, Hm.
Qed.

Lemma cam_settled m i r :
  cam_wait m -> pending m !! i = Some init_cam -> mounted m = true ->
  cam_final (match r with Fulfilled b => Some b | Rejected => None end)
    (step m (Settle i r)).
Proof.
  intros (Hle & Hw) Hi Hmt. unfold SideNav.step. rewrite Hi, commit_settle.
  unfold cam_final. frame_closed.
  open_machine m. subst.
  rewrite (count_delete is_init_task p i _ Hi) in Hle, Hw. simpl in Hle, Hw.
  rewrite Hw by lia.
  destruct r as [[]|]; act_simpl; (split; [lia|done]).
Qed.

(** X8.  The answer to the camera permission request of a mounted
    screen is final: from then on [hasCameraPermission] is [true] after a
    grant, [false] after a denial and still [null] after a failed request,
    whatever happens next.  So a denial leaves the "No access to camera"
    text and a failed request leaves the empty view for good: the request
    is never repeated. *)
Theorem X8_camera_answer_is_final
    (pre post : list Event) (i : nat) (r : Settled) :
  pending (run mount pre) !! i = Some init_cam ->
  mounted (run mount pre) = true ->
  let m := run (step (run mount pre) (Settle i r)) post in
  hasCameraPermission (st m)
  = match r with Fulfilled b => Some b | Rejected => None end /\
  camera_rendered (render (st m)) = is_granted r /\
  (r = Fulfilled false -> render (st m) = NoAccessText) /\
  (r = Rejected -> render (st m) = EmptyView).
Proof.
  intros Hi Hmt m.
  assert (cam_final (match r with Fulfilled b => Some b | Rejected => None end) m)
    as [_ Hcp].
  { apply run_cam_final, cam_settled; [|done..].
    apply run_cam_wait, mount_cam_wait. }
  split; [done|]. unfold render. rewrite Hcp.
  repeat split; [by destruct r as [[]|] | by intros -> | by intros ->].
Qed.

(** ** Rejections nobody handles *)



(** ** Voice needs a positive availability answer *)

Lemma step_voice_guard m e : voice_guard m -> voice_guard (step m e).
Proof.
  intros Hm. split; [apply step_cam_wait, Hm|].
  revert m e Hm.
  apply (step_ind (fun _ m m' =>
    voice_guard m ->
    (hasCameraPermission (st m') = None ->
     isListening (st m') = false /\ count is_Voice_start (log m') = 0%nat /\
     count is_armed (pending m') = 0%nat) /\
    (isListening (st m') = true \/ (1 <= count is_Voice_start (log m'))%nat \/
     (1 <= count is_armed (pending m'))%nat ->
     isVoiceAvailable (st m') = true))).
  - intros [] m; try done; by intros (_ & H).
  - intros e prev m m' H Hm. specialize (H Hm). frame_closed.
  - intros m b h Hmt Hh (_ & Hnone & Hav).
    apply onPress_cases in Hh as [Hcp ->].
    open_machine m. subst.
    destruct b, Platform_OS, li, av; act_simpl; count_simpl;
      (split; [done|]); first
        [ by intros
        | intros H; apply Hav; intuition (try discriminate; try lia) ].
  - intros m v rest (_ & Hnone & Hav).
    open_machine m. destruct mt; act_simpl; [|done].
    split; [intros Hcp; destruct (Hnone Hcp) as (_ & ? & ?); done|].
    intros H. apply Hav. intuition discriminate.
  - intros m i t r Ht ((Hle & Hw) & Hnone & Hav).
    open_machine m.
    rewrite (count_delete is_init_task p i t Ht) in Hle, Hw.
    rewrite (count_delete is_armed p i t Ht) in Hnone, Hav.
    destruct t as [| | |[]| | |], r as [[]|], mt, cp as [[]|], li, av;
      simpl in *; act_simpl; count_simpl;
      try (specialize (Hw ltac:(lia)); discriminate);
      (split; [try done; intros Hcp; specialize (Hnone Hcp); intuition lia|]);
      first
        [ by intros
        | intros H; try specialize (Hnone eq_refl);
          intuition (try discriminate; try lia) ].
  - intros m Hmt (_ & Hnone & Hav).
    open_machine m. subst. act_simpl. count_simpl.
    split; [intros Hcp; specialize (Hnone Hcp); intuition lia|].
    intros H. apply Hav. intuition lia.
Qed.

(** The availability flag is raised by a positive answer of
    [Voice.isAvailable] and by nothing else. *)
Lemma step_available_answered m e :
  isVoiceAvailable (st (step m e)) = true ->
  isVoiceAvailable (st m) = true \/ avail_answer m e = true.
Proof.
  revert m e.
  apply (step_ind (fun e m m' =>
    isVoiceAvailable (st m') = true ->
    isVoiceAvailable (st m) = true \/ avail_answer m e = true)).
  - intros [] m; auto.
  - intros e prev m m' H.
    destruct (settle_frame prev m') as (_ & _ & _ & _ & -> & _). exact H.
  - intros m b h Hmt Hh. apply onPress_cases in Hh as [_ ->].
    open_machine m. subst.
    destruct b, Platform_OS, li, av; act_simpl; auto.
  - intros m v rest. open_machine m. destruct mt; act_simpl; auto.
  - intros m i t r Ht. unfold avail_answer. rewrite Ht.
    open_machine m.
    destruct t as [| | |[]| | |], r as [[]|], mt; act_simpl; auto.
  - intros m Hmt. open_machine m. subst. act_simpl. auto.
Qed.

Lemma run_available_answered m evs :
  isVoiceAvailable (st (run m evs)) = true ->
  isVoiceAvailable (st m) = true \/ answered_available m evs = true.
Proof.
  revert m. induction evs as [|e evs IH]; intros m H; [by left|].
  change (run m (e :: evs)) with (run (step m e) evs) in H.
  cbn [SideNav.answered_available].
  destruct (IH _ H) as [Hs | ->]; [|right; apply orb_true_r].
  destruct (step_available_answered m e Hs) as [? | ->]; auto.
Qed.

(** X10.  Whenever the screen has finished handling an event: if it is
    listening or [Voice.start] has ever been called, then the
    availability flag is set and, earlier in the execution, the
    [Voice.isAvailable] of [init] was fulfilled with a positive answer;
    the flag is set by such an answer and by nothing else.  And until the
    camera permission is settled the screen neither listens nor has
    started the engine. *)
Theorem X10_voice_starts_only_when_available (evs : list Event) :
  let m := run mount evs in
  (isListening (st m) = true \/ (1 <= count is_Voice_start (log m))%nat ->
   isVoiceAvailable (st m) = true) /\
  (hasCameraPermission (st m) = None ->
   isListening (st m) = false /\ count is_Voice_start (log m) = 0%nat) /\
  (isVoiceAvailable (st m) = true -> answered_available mount evs = true) /\
  (isListening (st m) = true \/ (1 <= count is_Voice_start (log m))%nat ->
   answered_available mount evs = true) /\
  (forall m' e, isVoiceAvailable (st (step m' e)) = true ->
                isVoiceAvailable (st m') = true \/ avail_answer m' e = true).
Proof.
  assert (voice_guard (run mount evs)) as (_ & Hnone & Hav).
  { induction evs as [|e evs IH] using rev_ind.
    - split; [apply mount_cam_wait|].
      unfold SideNav.mount, SideNav.intentEffect.
      destruct Platform_OS; act_simpl; count_simpl;
        (split; [done | intuition (try discriminate; try lia)]).
    - rewrite run_app. by apply step_voice_guard. }
  assert (isVoiceAvailable (st (run mount evs)) = true ->
          answered_available mount evs = true) as Hans.
  { intros H. destruct (run_available_answered mount evs H) as [Hm|]; [|done].
    exfalso. revert Hm. unfold SideNav.mount, SideNav.intentEffect.
    destruct Platform_OS; by act_simpl. }
  repeat apply conj.
  - intros H. apply Hav. intuition.
  - intros Hcp. specialize (Hnone Hcp). intuition.
  - done.
  - intros H. apply Hans, Hav. intuition.
  - apply step_available_answered.
Qed.

(** ** Teardown and what follows it *)

Lemma step_listeners_after_destroy m e :
  (count is_removeAllListeners (log m) + count is_destroy_task (pending m)
   <= count is_Voice_destroy (log m))%nat ->
  (count is_removeAllListeners (log (step m e))
   + count is_destroy_task (pending (step m e))
   <= count is_Voice_destroy (log (step m e)))%nat.
Proof.
  revert m e.
  apply (step_ind (fun _ m m' =>
    (count is_removeAllListeners (log m) + count is_destroy_task (pending m)
     <= count is_Voice_destroy (log m))%nat ->
    (count is_removeAllListeners (log m') + count is_destroy_task (pending m')
     <= count is_Voice_destroy (log m'))%nat)).
  - by intros [].
  - intros e prev m m' H Hm. specialize (H Hm). frame_closed.
  - intros m b h Hmt Hh Hm. apply onPress_cases in Hh as [_ ->].
    open_machine m. subst.
    destruct b, Platform_OS, li, av; act_simpl; count_simpl; lia.
  - intros m v rest Hm. open_machine m. destruct mt; act_simpl; lia.
  - intros m i t r Ht Hm. open_machine m.
    rewrite (count_delete is_destroy_task p i t Ht) in Hm.
    destruct t as [| | |[]| | |], r as [[]|], mt; simpl in Hm;
      act_simpl; count_simpl; lia.
  - intros m Hmt Hm. open_machine m. subst. act_simpl. count_simpl. lia.
Qed.

(** A step calls [Voice.removeAllListeners] exactly when it is the
    cleanup's [Voice.destroy] being fulfilled. *)
Lemma step_listeners_removed m e :
  count is_removeAllListeners (log (step m e))
  = (count is_removeAllListeners (log m) + Nat.b2n (destroy_fulfilled m e))%nat.
Proof.
  destruct e as [b|v rest|i r|]; unfold SideNav.step, destroy_fulfilled.
  - destruct (mounted m) eqn:Hmt; [|simpl; lia].
    destruct (onPress _ b) as [h|] eqn:Hh; [|simpl; lia].
    rewrite commit_settle, settle_count by done.
    apply onPress_cases in Hh as [_ ->].
    open_machine m. subst.
    destruct b, Platform_OS, li, av; act_simpl; count_simpl; lia.
  - rewrite commit_settle, settle_count by done.
    open_machine m. destruct mt; act_simpl; lia.
  - destruct (pending m !! i) as [t|] eqn:Ht; [|destruct r; simpl; lia].
    rewrite commit_settle, settle_count by done.
    open_machine m.
    destruct t as [| | |[]| | |], r as [[]|], mt; act_simpl; count_simpl; lia.
  - open_machine m. destruct mt; act_simpl; count_simpl; lia.
Qed.

Lemma run_listeners_removed m evs :
  count is_removeAllListeners (log (run m evs))
  = (count is_removeAllListeners (log m) + destroys_fulfilled m evs)%nat.
Proof.
  revert m. induction evs as [|e evs IH]; intros m; simpl; [lia|].
  change (run m (e :: evs)) with (run (step m e) evs).
  rewrite IH, step_listeners_removed. lia.
Qed.

(** X11.  [Voice.removeAllListeners] is called exactly when the promise
    of the cleanup's [Voice.destroy] is fulfilled: every event adds one
    such call if it is that fulfilment and none otherwise, so a rejected
    destroy leaves the listeners in place, and over an execution the
    calls number the fulfilments.  It is called at most once per mount
    and never while the screen is mounted: the calls, together with the
    destroys still under way, never outnumber the destroys called. *)
Theorem X11_listeners_removed_only_after_destroy (evs : list Event) :
  let m := run mount evs in
  (count is_removeAllListeners (log m) + count is_destroy_task (pending m)
   <= count is_Voice_destroy (log m))%nat /\
  (count is_removeAllListeners (log m) <= 1)%nat /\
  (mounted m = true -> count is_removeAllListeners (log m) = 0%nat) /\
  count is_removeAllListeners (log m) = destroys_fulfilled mount evs /\
  (forall m' e,
      count is_removeAllListeners (log (step m' e))
      = (count is_removeAllListeners (log m')
         + Nat.b2n (destroy_fulfilled m' e))%nat) /\
  (forall m' i, destroy_fulfilled m' (Settle i Rejected) = false).
Proof.
  intros m.
  assert (count is_removeAllListeners (log m) + count is_destroy_task (pending m)
          <= count is_Voice_destroy (log m))%nat as H.
  { subst m. induction evs as [|e evs IH] using rev_ind.
    - unfold SideNav.mount, SideNav.intentEffect.
      destruct Platform_OS; act_simpl; count_simpl; lia.
    - rewrite run_app. by apply step_listeners_after_destroy. }
  pose proof (run_destroy_once evs) as Hd. fold m in Hd.
  assert (count is_removeAllListeners (log m) = destroys_fulfilled mount evs)
    as Hex.
  { subst m. rewrite run_listeners_removed.
    unfold SideNav.mount, SideNav.intentEffect.
    destruct Platform_OS; act_simpl; by count_simpl. }
  repeat apply conj; try done.
  - destruct (mounted m); lia.
  - intros Hmt. rewrite Hmt in Hd. lia.
  - apply step_listeners_removed.
Qed.

(** After the unmount React drops every state update. *)
Lemma step_unmounted_frozen m e :
  mounted m = false -> st (step m e) = st m /\ mounted (step m e) = false.
Proof.
  intros Hmt. destruct e as [b|v rest|i r|]; unfold SideNav.step;
    rewrite ?Hmt; try done.
  - open_machine m. subst. by settle_simpl.
  - destruct (pending m !! i) as [t|]; [|done].
    open_machine m. subst.
    destruct t as [| | |[]| | |], r as [[]|]; by settle_simpl.
Qed.

(** X12.  Unmounting cancels nothing.  Once the screen is unmounted
    its state never changes again, whatever arrives; but a
    [startListening] that was waiting for the microphone prompt when the
    screen went away still runs when the permission is granted: it calls
    [Voice.start] (after the cleanup's [Voice.destroy]) and parks on it,
    while the listening flag stays as it was. *)
Theorem X12_unmount_does_not_cancel_start (m : Machine) :
  mounted m = false ->
  (forall evs, st (run m evs) = st m /\ mounted (run m evs) = false) /\
  (forall i, pending m !! i = Some (start_mic true) ->
     let m' := step m (Settle i (Fulfilled true)) in
     log m' = (log m ++ [Voice_start "en-US"])%list /\
     pending m' = (delete i (pending m) ++ [start_voice])%list /\
     isListening (st m') = isListening (st m)).
Proof.
  intros Hmt. split.
  - intros evs. revert m Hmt.
    induction evs as [|e evs IH]; intros m Hmt; [done|].
    destruct (step_unmounted_frozen m e Hmt) as [Hst Hmt'].
    destruct (IH _ Hmt') as [IH1 IH2].
    change (run m (e :: evs)) with (run (step m e) evs).
    by rewrite IH1, IH2, Hst.
  - intros i Hi. unfold SideNav.step. rewrite Hi.
    open_machine m. subst. by settle_simpl.
Qed.

(** ** Alerts and permission prompts *)

Lemma step_alerts m e :
  (count is_alert (log (step m e)) + count is_voice_task (pending (step m e))
   <= count is_alert (log m) + count is_voice_task (pending m)
      + Nat.b2n (is_voice_press e))%nat.
Proof.
  revert m e.
  apply (step_ind (fun e m m' =>
    (count is_alert (log m') + count is_voice_task (pending m')
     <= count is_alert (log m) + count is_voice_task (pending m)
        + Nat.b2n (is_voice_press e))%nat)).
  - intros [] m; simpl; lia.
  - frame_closed.
  - intros m b h Hmt Hh. apply onPress_cases in Hh as [_ ->].
    open_machine m. subst.
    destruct b, Platform_OS, li, av; act_simpl; count_simpl; lia.
  - intros m v rest. open_machine m. destruct mt; act_simpl; lia.
  - intros m i t r Ht. open_machine m.
    rewrite (count_delete is_voice_task p i t Ht).
    destruct t as [| | |[]| | |], r as [[]|], mt; act_simpl; count_simpl; lia.
  - intros m Hmt. open_machine m. subst. act_simpl. count_simpl. lia.
Qed.

Lemma run_alerts m evs :
  (count is_alert (log (run m evs)) + count is_voice_task (pending (run m evs))
   <= count is_alert (log m) + count is_voice_task (pending m)
      + count is_voice_press evs)%nat.
Proof.
  revert m. induction evs as [|e evs IH]; intros m; simpl;
    [rewrite count_nil; lia|].
  specialize (IH (step m e)). pose proof (step_alerts m e).
  rewrite count_cons. unfold SideNav.run in *. simpl.
  destruct (is_voice_press e); simpl in *; lia.
Qed.

(** X13.  The user is never shown more alerts than the times they
    pressed the voice button: each press of it ends in at most one alert
    (permission denied, voice unavailable, start failed or stop failed),
    and nothing else in the component raises one. *)
Theorem X13_alerts_bounded_by_voice_presses (evs : list Event) :
  (count is_alert (log (run mount evs))
   + count is_voice_task (pending (run mount evs))
   <= count is_voice_press evs)%nat.
Proof.
  pose proof (run_alerts mount evs) as H.
  assert (count is_alert (log mount) = 0%nat /\
          count is_voice_task (pending mount) = 0%nat) as [Ha Hp].
  { unfold SideNav.mount, SideNav.intentEffect.
    destruct Platform_OS; act_simpl; by count_simpl. }
  lia.
Qed.

Lemma step_no_prompt m e :
  Platform_OS <> android ->
  count is_mic_request (log (step m e)) = count is_mic_request (log m).
Proof.
  intros Hos. revert m e.
  apply (step_ind (fun _ m m' =>
    count is_mic_request (log m') = count is_mic_request (log m))).
  - by intros [].
  - frame_closed.
  - intros m b h Hmt Hh. apply onPress_cases in Hh as [_ ->].
    open_machine m. subst.
    destruct b, Platform_OS, li, av; try done; act_simpl; count_simpl; lia.
  - intros m v rest. open_machine m. destruct mt; act_simpl; lia.
  - intros m i t r Ht. open_machine m.
    destruct t as [| | |[]| | |], r as [[]|], mt; act_simpl; count_simpl; lia.
  - intros m Hmt. open_machine m. subst. act_simpl. count_simpl. lia.
Qed.

(** X14.  On every platform other than Android the microphone
    permission is taken as granted without asking: no execution ever
    calls [PermissionsAndroid.request], and [init] goes straight to
    [Voice.isAvailable]. *)
Theorem X14_no_microphone_prompt_off_android (evs : list Event) :
  Platform_OS <> android ->
  count is_mic_request (log (run mount evs)) = 0%nat /\
  log mount = [Voice_isAvailable] /\ pending mount = [init_avail].
Proof.
  intros Hos. split.
  - induction evs as [|e evs IH] using rev_ind.
    + unfold SideNav.mount, SideNav.intentEffect.
      destruct Platform_OS; try done; act_simpl; by count_simpl.
    + rewrite run_app. simpl. by rewrite step_no_prompt.
  - unfold SideNav.mount, SideNav.intentEffect.
    destruct Platform_OS; try done; by act_simpl.
Qed.

End SideNavFacts.

(** * The claims on sample executions *)

Lemma C1_witness_mixed_case :
  ci_eq "Open Menu" "oPEN mENU" /\
  interpret "Open Menu" = interpret "oPEN mENU".
Proof.
  split; [reflexivity|].
  apply (proj1 (proj2 (proj2 (proj2
           (C1_interpret_case_insensitive_substring 360))))).
  reflexivity.
Defined.

(** C2.  The screen has heard "open menu" and the drawer is open.  A
    press on the close button asks for a closed drawer; the closing
    animation starts, the transcript effect runs again because [isOpen]
    changed, starts the opening animation, and the drawer is committed
    open: the last request did not win. *)
Theorem C2_close_press_after_open_menu_reopens :
  heard_open_menu
  = run ios 360 (mount ios 360)
      [Settle 0 (Fulfilled true); Settle 0 (Fulfilled true);
       SpeechResults "open menu" []] /\
  isOpen (st heard_open_menu) = true /\
  request_target (st heard_open_menu) (Press CloseButton) = Some false /\
  isOpen (st (step ios 360 heard_open_menu (Press CloseButton))) = true /\
  log (step ios 360 heard_open_menu (Press CloseButton))
  = (log heard_open_menu
     ++ [Animated_timing_start (-360) 200; Animated_timing_start 0 200])%list.
Proof. vm_compute. repeat split. Qed.

Lemma C3_witness_open_menu_again :
  request_target (st heard_open_menu) (SpeechResults "Open menu, please" [])
  = Some true /\
  isOpen (st heard_open_menu) = true /\
  isOpen (st (step ios 360 heard_open_menu (SpeechResults "Open menu, please" [])))
  = true /\
  log (step ios 360 heard_open_menu (SpeechResults "Open menu, please" []))
  = log heard_open_menu.
Proof.
  split; [reflexivity|]. split; [reflexivity|].
  apply (C3_request_for_current_position_is_noop ios 360 heard_open_menu
           (SpeechResults "Open menu, please" []) true); reflexivity.
Defined.


Lemma C5_witness_android_denied_then_retry_granted :
  pending (run android 360 (mount android 360) []) !! 0%nat = Some init_mic /\
  is_granted (Fulfilled false) = false /\
  let m := run android 360
             (step android 360 (run android 360 (mount android 360) [])
                (Settle 0 (Fulfilled false)))
             [Settle 0 (Fulfilled true); Press VoiceButton;
              Settle 0 (Fulfilled true)] in
  count is_Voice_start (log m) = 0%nat /\
  isVoiceAvailable (st m) = false /\
  isListening (st m) = false /\
  (count is_mic_request (log m)
   <= 1 + count is_voice_press
            ([] ++ [Settle 0 (Fulfilled true); Press VoiceButton;
                    Settle 0 (Fulfilled true)]))%nat.
Proof.
  split; [reflexivity|]. split; [reflexivity|].
  apply (proj1 (C5_mic_denied_never_starts_voice android 360)
           [] [Settle 0 (Fulfilled true); Press VoiceButton;
               Settle 0 (Fulfilled true)] 0%nat (Fulfilled false));
    reflexivity.
Defined.

Lemma C6_witness_camera_denied :
  pending (run ios 360 (mount ios 360) [Settle 0 (Fulfilled true)]) !! 0%nat
  = Some init_cam /\
  is_granted (Fulfilled false) = false /\
  Forall (fun m => camera_rendered (render (st m)) = false)
    (trace ios 360 (mount ios 360)
       ([Settle 0 (Fulfilled true)]
        ++ Settle 0 (Fulfilled false)
           :: [Press MenuButton; SpeechResults "open menu" []])).
Proof.
  split; [reflexivity|]. split; [reflexivity|].
  apply (proj2 (C6_camera_only_when_granted ios 360)
           [Settle 0 (Fulfilled true)]
           [Press MenuButton; SpeechResults "open menu" []]
           0%nat (Fulfilled false)); reflexivity.
Defined.

(** C7 as stated fails for [Voice.stop]: the screen is listening, the
    stop is rejected, and the screen is still listening. *)
Lemma C7_counterexample_failed_stop_keeps_listening :
  mounted stopping = true /\
  pending stopping !! 0%nat = Some stop_voice /\
  isListening (st (step ios 360 stopping (Settle 0 Rejected))) = true.
Proof. vm_compute. repeat split. Qed.

Lemma C7_witness_failed_start_and_stop :
  (pending starting !! 0%nat = Some start_voice /\
   mounted starting = true /\
   isListening (st starting) = true /\
   isListening (st (step ios 360 starting (Settle 0 Rejected))) = false /\
   unhandled (step ios 360 starting (Settle 0 Rejected)) = unhandled starting) /\
  (pending stopping !! 0%nat = Some stop_voice /\
   isListening (st (step ios 360 stopping (Settle 0 Rejected)))
   = isListening (st stopping) /\
   unhandled (step ios 360 stopping (Settle 0 Rejected)) = unhandled stopping).
Proof.
  split.
  - split; [reflexivity|]. split; [reflexivity|]. split; [reflexivity|].
    destruct (proj1 (C7_engine_failures_are_caught ios 360 starting 0))
      as (Hli & _ & Hu); [reflexivity | reflexivity |].
    split; [exact Hli | exact Hu].
  - split; [reflexivity|].
    destruct (proj2 (C7_engine_failures_are_caught ios 360 stopping 0))
      as (Hli & _ & Hu); [reflexivity |].
    split; [exact Hli | exact Hu].
Defined.

Lemma C8_witness_flip_twice :
  mounted granted_ios = true /\
  hasCameraPermission (st granted_ios) = Some true /\
  cameraType (st (step ios 360 granted_ios (Press CameraFlipButton))) = front /\
  cameraType (st (step ios 360 (step ios 360 granted_ios (Press CameraFlipButton))
                    (Press CameraFlipButton)))
  = cameraType (st granted_ios).
Proof.
  split; [reflexivity|]. split; [reflexivity|].
  destruct (C8_toggle_camera_twice_is_identity ios 360 granted_ios)
    as (H1 & _ & H2); [reflexivity | reflexivity |].
  split; [exact H1 | exact H2].
Defined.

Lemma C9_witness_close_press_bounces :
  mounted heard_open_menu = true /\
  hasCameraPermission (st heard_open_menu) = Some true /\
  interpret (spokenText (st heard_open_menu)) = OpenDrawer /\
  isOpen (st heard_open_menu) = true /\
  isOpen (st (step ios 360 heard_open_menu (Press CloseButton))) = true.
Proof.
  split; [reflexivity|]. split; [reflexivity|].
  split; [reflexivity|]. split; [reflexivity|].
  destruct (proj2 (C9_stale_transcript_reverts_drawer ios 360)
              heard_open_menu CloseButton) as [Hopen _];
    [reflexivity | reflexivity | right; reflexivity |].
  destruct Hopen as [H _]; [reflexivity | reflexivity | exact H].
Defined.

Lemma C10_witness_result_while_listening :
  mounted stopping = true /\
  isListening (st stopping) = true /\
  isListening (st (step ios 360 stopping (SpeechResults "hello" []))) = false /\
  spokenText (st (step ios 360 stopping (SpeechResults "hello" []))) = "hello".
Proof.
  split; [reflexivity|]. split; [reflexivity|].
  destruct (proj1 (C10_result_ends_listening ios 360) stopping "hello" [])
    as (H1 & H2 & _); [reflexivity|].
  split; [exact H1 | exact H2].
Defined.

(** * The further properties on sample executions *)

Lemma X2_witness_close_menu_after_open :
  mounted heard_open_menu = true /\
  drawer_agrees heard_open_menu /\
  isOpen (st (step ios 360 heard_open_menu (SpeechResults "Close menu now" [])))
  = false /\
  log (step ios 360 heard_open_menu (SpeechResults "Close menu now" []))
  = (log heard_open_menu ++ [Animated_timing_start (-360) 200])%list.
Proof.
  split; [reflexivity|]. split; [vm_compute; reflexivity|].
  apply (X2_speech_result_moves_drawer_by_intent ios 360 heard_open_menu
           "Close menu now" []); [reflexivity | vm_compute; reflexivity].
Defined.

Lemma X3_witness_menu_then_close :
  mounted granted_ios = true /\
  hasCameraPermission (st granted_ios) = Some true /\
  interpret (spokenText (st granted_ios)) = NoIntent /\
  isOpen (st (step ios 360 granted_ios (Press MenuButton))) = true /\
  isOpen (st (step ios 360 (step ios 360 granted_ios (Press MenuButton))
                (Press CloseButton))) = false.
Proof.
  split; [reflexivity|]. split; [reflexivity|]. split; [reflexivity|].
  destruct (X3_press_toggles_drawer_without_command ios 360 granted_ios
              MenuButton CloseButton) as (H1 & _ & H2 & _);
    [reflexivity | reflexivity | reflexivity
     | left; reflexivity | right; reflexivity |].
  split; [exact H1 | exact H2].
Defined.

Lemma X5_witness_voice_press_keeps_drawer :
  moves_drawer (Press VoiceButton) = false /\
  isOpen (st (step ios 360 heard_open_menu (Press VoiceButton)))
  = isOpen (st heard_open_menu) /\
  spokenText (st (step ios 360 heard_open_menu (Press VoiceButton)))
  = spokenText (st heard_open_menu) /\
  count is_animation (log (step ios 360 heard_open_menu (Press VoiceButton)))
  = count is_animation (log heard_open_menu).
Proof.
  split; [reflexivity|].
  apply (X5_other_events_leave_drawer_alone ios 360 heard_open_menu
           (Press VoiceButton)); reflexivity.
Defined.

Lemma X6_witness_menu_press_keeps_camera :
  Press MenuButton <> Press CameraFlipButton /\
  cameraType (st (step ios 360 granted_ios (Press MenuButton)))
  = cameraType (st granted_ios).
Proof.
  split; [intros H; discriminate H|].
  apply (X6_only_flip_button_changes_camera ios 360 granted_ios
           (Press MenuButton)); intros H; discriminate H.
Defined.

Lemma X8_witness_camera_request_fails :
  pending (run ios 360 (mount ios 360) [Settle 0 (Fulfilled true)]) !! 0%nat
  = Some init_cam /\
  mounted (run ios 360 (mount ios 360) [Settle 0 (Fulfilled true)]) = true /\
  let m := run ios 360
             (step ios 360 (run ios 360 (mount ios 360) [Settle 0 (Fulfilled true)])
                (Settle 0 Rejected))
             [SpeechResults "open menu" []; Press MenuButton] in
  hasCameraPermission (st m) = None /\ render (st m) = EmptyView.
Proof.
  split; [reflexivity|]. split; [reflexivity|].
  destruct (X8_camera_answer_is_final ios 360 [Settle 0 (Fulfilled true)]
              [SpeechResults "open menu" []; Press MenuButton] 0 Rejected)
    as (H1 & _ & _ & H2); [reflexivity | reflexivity |].
  split; [exact H1 | exact (H2 eq_refl)].
Defined.

Lemma X10_witness_listening_screen_is_available :
  isListening (st (run ios 360 (mount ios 360)
                     [Settle 0 (Fulfilled true); Settle 0 (Fulfilled true);
                      Press VoiceButton])) = true /\
  isVoiceAvailable (st (run ios 360 (mount ios 360)
                          [Settle 0 (Fulfilled true); Settle 0 (Fulfilled true);
                           Press VoiceButton])) = true.
Proof.
  split; [reflexivity|].
  apply (proj1 (X10_voice_starts_only_when_available ios 360
                  [Settle 0 (Fulfilled true); Settle 0 (Fulfilled true);
                   Press VoiceButton])).
  left. reflexivity.
Defined.

Lemma X12_witness_start_after_destroy :
  mounted unmounted_while_asking = false /\
  pending unmounted_while_asking !! 0%nat = Some (start_mic true) /\
  count is_Voice_destroy (log unmounted_while_asking) = 1%nat /\
  log (step android 360 unmounted_while_asking (Settle 0 (Fulfilled true)))
  = (log unmounted_while_asking ++ [Voice_start "en-US"])%list /\
  isListening (st (step android 360 unmounted_while_asking
                     (Settle 0 (Fulfilled true)))) = false.
Proof.
  split; [reflexivity|]. split; [reflexivity|]. split; [reflexivity|].
  destruct (proj2 (X12_unmount_does_not_cancel_start android 360
                     unmounted_while_asking eq_refl) 0%nat)
    as (H1 & _ & H2); [reflexivity|].
  split; [exact H1 | exact H2].
Defined.

Lemma X14_witness_ios_never_prompts :
  ios <> android /\
  count is_mic_request
    (log (run ios 360 (mount ios 360)
            [Settle 0 (Fulfilled true); Settle 0 (Fulfilled true);
             Press VoiceButton])) = 0%nat.
Proof.
  split; [intros H; discriminate H|].
  apply (proj1 (X14_no_microphone_prompt_off_android ios 360
                  [Settle 0 (Fulfilled true); Settle 0 (Fulfilled true);
                   Press VoiceButton] ltac:(intros H; discriminate H))).
Defined.

(** * Teardown and repeated results on sample executions *)


(** C10 as stated fails: after one press on the voice button, hence one
    [Voice.start], the engine delivers three results; each one is stored
    as the transcript in its turn, so three utterances are taken in for
    one start.  Only the first arrived while the screen was listening. *)
Lemma C10_counterexample_three_results_one_start :
  count is_Voice_start
    (log (run ios 360 (mount ios 360) one_start_three_results)) = 1%nat /\
  count is_Voice_stop
    (log (run ios 360 (mount ios 360) one_start_three_results)) = 0%nat /\
  results_stored ios 360 (mount ios 360) one_start_three_results = 3%nat /\
  results_while_listening ios 360 (mount ios 360) one_start_three_results = 1%nat /\
  spokenText (st (run ios 360 (mount ios 360) (take 4 one_start_three_results)))
  = "one" /\
  spokenText (st (run ios 360 (mount ios 360) (take 5 one_start_three_results)))
  = "two" /\
  spokenText (st (run ios 360 (mount ios 360) one_start_three_results))
  = "three".
Proof. vm_compute. repeat split. Qed.
